(** * PYResizer: the border cropper of [main.py]

    A shallow embedding of [auto_crop_borders] (main.py, lines 14-126) and a
    verification of the properties its specification states about it,
    followed by further properties of the cropper and of the batch driver
    [process_folder] (lines 128-177).

    The Python function reads an image file, converts it to RGBA, scans the
    pixel array from the four sides for the first line that is not entirely
    background, crops to the box found, optionally pastes the crop in the
    middle of a transparent square canvas, and saves the result.  All of it
    runs inside one [try]/[except Exception] block.

    Python integers are unbounded: indices, sizes and the padding are [Z].
    A pixel channel is a [uint8] read from the array, kept as a [Z].
    The [print] calls and the timing code have no effect on the result and
    are left out.  The variables [left] and [right] of the source are
    written [left_] and [right_] where a pattern binds them, since [left]
    and [right] are constructors there. *)

From Stdlib Require Import Ascii.
From stdpp Require Import base tactics option numbers list list_numbers strings gmap.

Local Open Scope Z_scope.

(** ** Exceptions and results

    A computation of the Python program either returns a value, raises an
    exception, or runs for ever ([Diverge], which is what a [while] loop of
    the model answers when its fuel is used up). *)

Inductive exn : Set :=
  | IndexError               (* numpy index out of bounds *)
  | ValueError               (* PIL: bad size or bad crop box *)
  | OSError                  (* PIL: the file cannot be written *)
  | UnidentifiedImageError.  (* PIL: the file is not an image *)

Inductive result (A : Type) : Type :=
  | Ok (a : A)
  | Raise (e : exn)
  | Diverge.

Arguments Ok {A} a.
Arguments Raise {A} e.
Arguments Diverge {A}.

#[global] Instance result_ret : MRet result := λ A a, Ok a.

#[global] Instance result_bind : MBind result := λ A B f m,
  match m with
  | Ok a => f a
  | Raise e => Raise e
  | Diverge => Diverge
  end.

(** [try: m except Exception as e: h e].  Non-termination is not an
    exception and is not caught. *)
Definition try_except {A} (m : result A) (handler : exn → result A) : result A :=
  match m with
  | Raise e => handler e
  | _ => m
  end.

(** [while cond(s): s = body(s)], with the number of evaluations of the
    condition bounded by [fuel]. *)
Fixpoint while_loop {St} (fuel : nat) (cond : St → result bool)
    (body : St → St) (s : St) : result St :=
  match fuel with
  | O => Diverge
  | S fuel' =>
      b ← cond s;
      if b : bool then while_loop fuel' cond body (body s) else Ok s
  end.

(** [range(n)]: empty when [n <= 0]. *)
Definition range (n : Z) : list Z := seqZ 0 n.

(** [all(f(x) for x in xs)]: the generator is consumed from the left and
    [all] stops at the first false element; an exception raised while an
    element is computed ends the evaluation. *)
Fixpoint all_gen (xs : list Z) (f : Z → result bool) : result bool :=
  match xs with
  | [] => Ok true
  | x :: xs' => b ← f x; if b : bool then all_gen xs' f else Ok false
  end.

(** ** Pixels and images *)

Record pixel : Set := Pixel { red : Z; green : Z; blue : Z; alpha : Z }.

#[global] Instance pixel_eq_dec : EqDecision pixel.
Proof. solve_decision. Defined.

(** An RGBA image: its rows from top to bottom, each a list of pixels from
    left to right, and the number of columns (which the rows do not tell
    when there is none).  The same value stands for the PIL image [img] and
    for [img_array = np.array(img)], whose shape is (height, width, 4). *)
Record image : Set := Image { img_width : nat; img_rows : list (list pixel) }.

#[global] Instance image_eq_dec : EqDecision image.
Proof. solve_decision. Defined.

Definition width (img : image) : Z := Z.of_nat (img_width img).
Definition height (img : image) : Z := Z.of_nat (length (img_rows img)).

(** [img.size] *)
Definition size (img : image) : Z * Z := (width img, height img).

(** Every row has [width] pixels: the array is rectangular. *)
Definition wf_image (img : image) : Prop :=
  Forall (λ row, length row = img_width img) (img_rows img).

#[global] Instance wf_image_dec img : Decision (wf_image img).
Proof. unfold wf_image. apply _. Defined.

(** The pixel in column [x] of row [y], when there is one. *)
Definition pixel_at (img : image) (x y : Z) : option pixel :=
  if (0 <=? x) && (0 <=? y)
  then row ← img_rows img !! Z.to_nat y; row !! Z.to_nat x
  else None.

(** numpy index normalisation along an axis of length [n]: an index in
    [-n, 0) counts from the end, one outside [-n, n) raises [IndexError]. *)
Definition normalize_index (i n : Z) : result Z :=
  if (0 <=? i) && (i <? n) then Ok i
  else if (- n <=? i) && (i <? 0) then Ok (i + n)
  else Raise IndexError.

(** [img_array[row, col]] *)
Definition getitem (img_array : image) (row col : Z) : result pixel :=
  r ← normalize_index row (height img_array);
  c ← normalize_index col (width img_array);
  match pixel_at img_array c r with
  | Some p => Ok p
  | None => Raise IndexError
  end.

(** ** Pixel classification (main.py, lines 41-46)

    [crop_transparent] is the variable of the enclosing function that the
    nested [is_background] captures. *)
Definition is_background (crop_transparent : bool) (pixel : pixel) (threshold : Z) : bool :=
  if crop_transparent && (alpha pixel =? 0) then true
  else forallb (λ value, value >=? threshold) [red pixel; green pixel; blue pixel].

(** ** Boundary search (main.py, lines 54-72) *)

Section scans.
Context (img_array : image) (threshold : Z) (crop_transparent : bool).

(** [all(is_background(img_array[row, col], threshold) for col in range(width))] *)
Definition row_all_background (row : Z) : result bool :=
  all_gen (range (width img_array)) (λ col,
    p ← getitem img_array row col;
    Ok (is_background crop_transparent p threshold)).

(** [all(is_background(img_array[row, col], threshold) for row in range(height))] *)
Definition col_all_background (col : Z) : result bool :=
  all_gen (range (height img_array)) (λ row,
    p ← getitem img_array row col;
    Ok (is_background crop_transparent p threshold)).

(** Each loop tests its condition at most once per line and once more to
    leave. *)
Definition scan_fuel : nat :=
  S (Z.to_nat (Z.max (height img_array) (width img_array))).

(** lines 55-57 *)
Definition find_top : result Z :=
  while_loop scan_fuel
    (λ top, if top <? height img_array then row_all_background top else Ok false)
    (λ top, top + 1) 0.

(** lines 60-62 *)
Definition find_bottom : result Z :=
  while_loop scan_fuel
    (λ bottom, if bottom >=? 0 then row_all_background bottom else Ok false)
    (λ bottom, bottom - 1) (height img_array - 1).

(** lines 65-67 *)
Definition find_left : result Z :=
  while_loop scan_fuel
    (λ left, if left <? width img_array then col_all_background left else Ok false)
    (λ left, left + 1) 0.

(** lines 70-72 *)
Definition find_right : result Z :=
  while_loop scan_fuel
    (λ right, if right >=? 0 then col_all_background right else Ok false)
    (λ right, right - 1) (width img_array - 1).

(** The four scans in the order of the source: (top, bottom, left, right). *)
Definition find_boundaries : result (Z * Z * Z * Z) :=
  top ← find_top;
  bottom ← find_bottom;
  left ← find_left;
  right ← find_right;
  Ok (top, bottom, left, right).
End scans.

(** ** The PIL operations the function calls *)

Definition transparent : pixel := Pixel 0 0 0 0.

(** [Image.new('RGBA', (w, h), color)]: a negative size is refused.  The
    library also gives up on a canvas too large for its integers or for
    the memory; the model has no such limit, and what is stated of a
    canvas is stated of the canvas the library does make. *)
Definition Image_new (sz : Z * Z) (color : pixel) : result image :=
  let '(w, h) := sz in
  if (w <? 0) || (h <? 0) then Raise ValueError
  else Ok (Image (Z.to_nat w) (replicate (Z.to_nat h) (replicate (Z.to_nat w) color))).

(** [img.crop((left, upper, right, lower))]: the pixels of the half-open
    rectangle; a position of the box outside the image gives a transparent
    black pixel, a box with [right < left] or [lower < upper] is refused. *)
Definition img_crop (img : image) (box : Z * Z * Z * Z) : result image :=
  let '(left_, upper, right_, lower) := box in
  if (right_ <? left_) || (lower <? upper) then Raise ValueError
  else Ok (Image (Z.to_nat (right_ - left_))
             ((λ y, (λ x, default transparent (pixel_at img x y))
                      <$> seqZ left_ (right_ - left_))
                <$> seqZ upper (lower - upper))).

(** [canvas.paste(im, (ox, oy))] with no mask: the pixels of [im], alpha
    included, replace those of the canvas over the rectangle whose upper
    left corner is (ox, oy), clipped to the canvas. *)
Definition img_paste (canvas im : image) (position : Z * Z) : image :=
  let '(ox, oy) := position in
  Image (img_width canvas)
    (imap (λ y row,
       imap (λ x p, default p (pixel_at im (Z.of_nat x - ox) (Z.of_nat y - oy))) row)
     (img_rows canvas)).

(** ** Cropping and squaring (main.py, lines 38-111)

    The part of the function between decoding and saving, which the
    specification calls [crop].  The outcome records which of the two
    [save] calls is reached and with which image:
    [Unchanged img] for line 80, which saves the decoded image itself, and
    [Cropped cropped_img] for line 120. *)

Inductive crop_result : Set :=
  | Unchanged (img : image)
  | Cropped (cropped_img : image).

#[global] Instance crop_result_eq_dec : EqDecision crop_result.
Proof. solve_decision. Defined.

(** The box handed to [img.crop] on line 88. *)
Definition crop_box (bounds : Z * Z * Z * Z) : Z * Z * Z * Z :=
  let '(top, bottom, left_, right_) := bounds in
  (left_, top, right_ + 1, bottom + 1).

(** Lines 93-111. *)
Definition paste_position (cropped_width cropped_height padding : Z) : Z * Z :=
  let max_dimension := Z.max cropped_width cropped_height in
  (padding + (max_dimension - cropped_width) / 2,
   padding + (max_dimension - cropped_height) / 2).

Definition make_square_image (cropped_img : image) (padding : Z) : result image :=
  let '(cropped_width, cropped_height) := size cropped_img in
  let max_dimension := Z.max cropped_width cropped_height in
  let square_size := max_dimension + padding * 2 in
  square_img ← Image_new (square_size, square_size) transparent;
  Ok (img_paste square_img cropped_img
        (paste_position cropped_width cropped_height padding)).

Definition crop (img : image) (threshold : Z) (crop_transparent make_square : bool)
    (padding : Z) : result crop_result :=
  bounds ← find_boundaries img threshold crop_transparent;
  let '(top, bottom, left_, right_) := bounds in
  if (top >=? bottom) || (left_ >=? right_) then Ok (Unchanged img)
  else
    cropped_img ← img_crop img (crop_box bounds);
    if make_square then
      square_img ← make_square_image cropped_img padding;
      Ok (Cropped square_img)
    else Ok (Cropped cropped_img).

(** The image that reaches [save]. *)
Definition saved_image (r : crop_result) : image :=
  match r with
  | Unchanged img => img
  | Cropped cropped_img => cropped_img
  end.

(** ** Files (main.py, lines 17-32 and 118-126) *)

(** What a path holds: an image that PIL can decode, here already in the
    RGBA form that [Image.open] followed by [convert('RGBA')] gives, or
    something PIL cannot read.  [Image.open] refuses an image of zero
    width or zero height: a file with such an image is [NotAnImage], and
    the image of an [ImageFile] has at least one pixel. *)
Inductive file : Set :=
  | ImageFile (img : image)
  | NotAnImage.

Record world : Type := World {
  files : gmap string file;
  read_only : gset string   (* paths at which img.save fails *)
}.

Definition os_path_exists (w : world) (path : string) : bool :=
  bool_decide (is_Some (files w !! path)).

Definition Image_open (w : world) (path : string) : result image :=
  match files w !! path with
  | Some (ImageFile img) => Ok img
  | _ => Raise UnidentifiedImageError
  end.

(** [img.save(path)].  The images saved are RGBA images of at least one
    pixel, so that whether the call succeeds is a matter of the path:
    [read_only] holds the paths at which it fails, for want of a
    permission or of the directory, or because the extension of the path
    names no encoder or one that refuses RGBA, as ".jpg" does. *)
Definition img_save (w : world) (img : image) (path : string) : result world :=
  if bool_decide (path ∈ read_only w) then Raise OSError
  else Ok (World (<[path := ImageFile img]> (files w)) (read_only w)).

(** The body of the [try] block: the returned boolean and the files after
    the call. *)
Definition auto_crop_borders_try (w : world) (input_path output_path : string)
    (threshold : Z) (crop_transparent make_square : bool) (padding : Z)
    : result (bool * world) :=
  if negb (os_path_exists w input_path) then Ok (false, w)
  else
    img ← Image_open w input_path;
    r ← crop img threshold crop_transparent make_square padding;
    w' ← img_save w (saved_image r) output_path;
    Ok (true, w').

(** [auto_crop_borders]: the [except Exception] clause of line 124 answers
    [False] for whatever the body raises. *)
Definition auto_crop_borders (w : world) (input_path output_path : string)
    (threshold : Z) (crop_transparent make_square : bool) (padding : Z)
    : result (bool * world) :=
  try_except
    (auto_crop_borders_try w input_path output_path threshold crop_transparent
       make_square padding)
    (λ e, Ok (false, w)).

(** ** The scenario of the specification: a 10x10 white image with a black
    4x4 block from (3,3) to (6,6). *)

Definition white : pixel := Pixel 255 255 255 255.
Definition black : pixel := Pixel 0 0 0 255.

Definition scenario_image : image :=
  Image 10
    ((λ y, (λ x, if (3 <=? x) && (x <=? 6) && (3 <=? y) && (y <=? 6)
                 then black else white) <$> seqZ 0 10) <$> seqZ 0 10).

Definition black_4x4 : image := Image 4 (replicate 4 (replicate 4 black)).

(** A 3x3 white image with one black pixel at (1, 2). *)
Definition single_pixel_image : image :=
  Image 3 [[white; white; white]; [white; white; white]; [white; black; white]].

(** A 4x3 white image whose middle row holds two black pixels. *)
Definition one_row_image : image :=
  Image 4 [[white; white; white; white];
           [white; black; black; white];
           [white; white; white; white]].

(** The scenario squared with a padding of 2: the block in the middle of
    a transparent 8x8 canvas. *)
Definition scenario_squared : image :=
  Image 8
    ((λ y, (λ x, if (2 <=? x) && (x <=? 5) && (2 <=? y) && (y <=? 5)
                 then black else transparent) <$> seqZ 0 8) <$> seqZ 0 8).

(** A 4x5 white image with a black block 2 wide and 3 high, and what
    squaring it with a padding of 1 gives. *)
Definition narrow_image : image :=
  Image 4 [[white; white; white; white];
           [white; black; black; white];
           [white; black; black; white];
           [white; black; black; white];
           [white; white; white; white]].

Definition narrow_squared : image :=
  Image 5 [[transparent; transparent; transparent; transparent; transparent];
           [transparent; black; black; transparent; transparent];
           [transparent; black; black; transparent; transparent];
           [transparent; black; black; transparent; transparent];
           [transparent; transparent; transparent; transparent; transparent]].

(** A file system whose input file is not an image. *)
Definition world_with_text_file : world :=
  World {[ "in.png" := NotAnImage ]} ∅.

(** ** Paths and file names

    The functions of [str] and [os.path] (posixpath) that [process_folder]
    calls.  A string is the sequence of its characters; [lower] changes the
    ASCII capitals, which is all that decides whether a name ends with one
    of the three ASCII extensions. *)

Definition ascii_lower (c : Ascii.ascii) : Ascii.ascii :=
  let n := Ascii.nat_of_ascii c in
  if (65 <=? n)%nat && (n <=? 90)%nat then Ascii.ascii_of_nat (n + 32) else c.

(** [s.lower()] *)
Fixpoint lower (s : string) : string :=
  match s with
  | EmptyString => EmptyString
  | String c s' => String (ascii_lower c) (lower s')
  end.

(** [s.startswith(prefix)] *)
Definition startswith (s prefix : string) : bool := String.prefix prefix s.

(** [s.endswith(suffix)]: some tail of [s] is [suffix]. *)
Fixpoint endswith (s suffix : string) : bool :=
  String.eqb s suffix
  || match s with
     | EmptyString => false
     | String _ s' => endswith s' suffix
     end.

(** [c in s] *)
Fixpoint contains (c : Ascii.ascii) (s : string) : bool :=
  match s with
  | EmptyString => false
  | String a s' => Ascii.eqb a c || contains c s'
  end.

(** The split of [s] at its last [c]: [s[:i]] and [s[i:]] for
    [i = s.rfind(c)], when [c] occurs in [s]. *)
Fixpoint rsplit (c : Ascii.ascii) (s : string) : option (string * string) :=
  match s with
  | EmptyString => None
  | String a s' =>
      match rsplit c s' with
      | Some (head, tail) => Some (String a head, tail)
      | None => if Ascii.eqb a c then Some (EmptyString, s) else None
      end
  end.

(** Every character of [s] is [c]. *)
Fixpoint all_chars (c : Ascii.ascii) (s : string) : bool :=
  match s with
  | EmptyString => true
  | String a s' => Ascii.eqb a c && all_chars c s'
  end.

(** [os.path.join(a, b)]: an absolute [b] replaces [a]; otherwise [b] is
    appended, after a separator unless [a] is empty or ends with one. *)
Definition os_path_join (a b : string) : string :=
  if startswith b "/" then b
  else if String.eqb a "" || endswith a "/" then a +:+ b
  else a +:+ "/" +:+ b.

(** [os.path.splitext(p)]: the split at the last dot of the last component
    of [p], unless that component has no dot or nothing but dots before
    it. *)
Definition os_path_splitext (p : string) : string * string :=
  match rsplit "."%char p with
  | None => (p, "")
  | Some (root, ext) =>
      if contains "/"%char ext then (p, "")
      else
        let name := match rsplit "/"%char root with
                    | Some (_, String _ name) => name
                    | _ => root
                    end in
        if all_chars "."%char name then (p, "") else (root, ext)
  end.

(** ** Directories

    The files of a [world] and the directories: each directory with the
    names [os.listdir] gives for it, in the order it gives them.  The
    listings are those of the start of the run, and a directory made during
    the run is entered empty: [process_folder] lists a directory once, and
    never one it writes into. *)

Record filesystem : Type := FileSystem {
  fs_world : world;
  fs_dirs : gmap string (list string)
}.

(** [os.path.isdir(path)] *)
Definition os_path_isdir (fs : filesystem) (path : string) : bool :=
  bool_decide (is_Some (fs_dirs fs !! path)).

(** [os.path.exists(path)], for a file or a directory *)
Definition path_exists (fs : filesystem) (path : string) : bool :=
  os_path_exists (fs_world fs) path || os_path_isdir fs path.

(** [os.listdir(path)]: [FileNotFoundError] and [NotADirectoryError] are
    [OSError]s.  Every directory of the model can be read. *)
Definition os_listdir (fs : filesystem) (path : string) : result (list string) :=
  match fs_dirs fs !! path with
  | Some names => Ok names
  | None => Raise OSError
  end.

(** [os.makedirs(path)]: refused when the path exists or cannot be
    written. *)
Definition os_makedirs (fs : filesystem) (path : string) : result filesystem :=
  if path_exists fs path || bool_decide (path ∈ read_only (fs_world fs))
  then Raise OSError
  else Ok (FileSystem (fs_world fs) (<[path := []]> (fs_dirs fs))).

(** ** Computations on the file system

    What a part of [process_folder] does to a file system: it returns, it
    raises, in both cases leaving the file system it reached, or it runs
    for ever. *)

Inductive outcome (A : Type) : Type :=
  | Returns (a : A) (fs : filesystem)
  | Raises (e : exn) (fs : filesystem)
  | Hangs.

Arguments Returns {A} a fs.
Arguments Raises {A} e fs.
Arguments Hangs {A}.

Definition io (A : Type) : Type := filesystem → outcome A.

Definition io_ret {A} (a : A) : io A := λ fs, Returns a fs.

Definition io_bind {A B} (m : io A) (f : A → io B) : io B := λ fs,
  match m fs with
  | Returns a fs' => f a fs'
  | Raises e fs' => Raises e fs'
  | Hangs => Hangs
  end.

(** A call that reads the file system. *)
Definition io_read {A} (f : filesystem → result A) : io A := λ fs,
  match f fs with
  | Ok a => Returns a fs
  | Raise e => Raises e fs
  | Diverge => Hangs
  end.

(** A call that changes the file system. *)
Definition io_write (f : filesystem → result filesystem) : io unit := λ fs,
  match f fs with
  | Ok fs' => Returns tt fs'
  | Raise e => Raises e fs
  | Diverge => Hangs
  end.

(** [for x in xs: body(x)] *)
Fixpoint for_each {A} (xs : list A) (body : A → io unit) : io unit :=
  match xs with
  | [] => io_ret tt
  | x :: xs' => io_bind (body x) (λ _, for_each xs' body)
  end.

(** ** [process_folder] (main.py, lines 128-177) *)

(** [file.lower().endswith(('.png', '.jpg', '.jpeg'))] *)
Definition has_image_extension (file : string) : bool :=
  existsb (endswith (lower file)) [".png"; ".jpg"; ".jpeg"].

(** Lines 152-155 and 159-162: the images of one source folder are added
    to [source_images], each with its path and its name. *)
Definition collect_images (fs : filesystem) (folder : string)
    (source_images : list (string * string)) : result (list (string * string)) :=
  if path_exists fs folder && os_path_isdir fs folder then
    names ← os_listdir fs folder;
    Ok (foldl (λ source_images file,
                 if has_image_extension file
                 then source_images ++ [(os_path_join folder file, file)]
                 else source_images)
              source_images names)
  else Ok source_images.

(** Lines 166-168 *)
Definition output_filename (filename : string) : string :=
  let base_name := (os_path_splitext filename).1 in
  base_name +:+ "_cropped.png".

(** Line 171: the call of [auto_crop_borders], whose answer is dropped.
    The call sees the files only: a directory met in place of an image is
    no file to it and the answer is [False], as it is when [Image.open]
    raises on a directory; and [read_only] stands for every reason why an
    output cannot be written. *)
Definition call_auto_crop_borders (source_path output_path : string) : io unit := λ fs,
  match auto_crop_borders (fs_world fs) source_path output_path 240 true true 700 with
  | Ok (_, w') => Returns tt (FileSystem w' (fs_dirs fs))
  | Raise e => Raises e fs
  | Diverge => Hangs
  end.

(** Lines 165-171 *)
Definition process_images (resized_folder : string)
    (source_images : list (string * string)) : io unit :=
  for_each source_images (λ '(source_path, filename),
    let output_path := os_path_join resized_folder (output_filename filename) in
    call_auto_crop_borders source_path output_path).

(** Lines 138-174: one folder of the target directory. *)
Definition process_one_folder (target_dir folder : string) : io unit :=
  let folder_path := os_path_join target_dir folder in
  let resized_folder := os_path_join folder_path "Resized" in
  io_bind (λ fs, if negb (path_exists fs resized_folder)
                 then io_write (λ fs, os_makedirs fs resized_folder) fs
                 else Returns tt fs) (λ _,
  let source_images := [] in
  let png_folder := os_path_join folder_path "PNG" in
  io_bind (io_read (λ fs, collect_images fs png_folder source_images)) (λ source_images,
  let transparent_folder := os_path_join folder_path "Transparent_ Background" in
  io_bind (io_read (λ fs, collect_images fs transparent_folder source_images))
    (λ source_images,
  process_images resized_folder source_images))).

(** The body of the [try] block: lines 135-174. *)
Definition process_folder_try (target_dir : string) : io unit :=
  io_bind (io_read (λ fs, os_listdir fs target_dir)) (λ names,
  io_bind (io_read (λ fs,
             Ok (filter (λ f, os_path_isdir fs (os_path_join target_dir f) = true)
                        names))) (λ folders,
  for_each folders (process_one_folder target_dir))).

(** [process_folder]: the [except Exception] clause of line 176 prints
    the error and the function returns. *)
Definition process_folder (target_dir : string) : io unit := λ fs,
  match process_folder_try target_dir fs with
  | Raises e fs' => Returns tt fs'
  | o => o
  end.

(** A file system for the examples: a target with one product folder,
    whose two source folders hold two images with the same base name, and
    a stray file. *)
Definition batch_world : world :=
  World {[ "target/w1/PNG/a.png" := ImageFile scenario_image;
           "target/w1/PNG/notes.txt" := NotAnImage;
           "target/w1/Transparent_ Background/a.JPG" := ImageFile narrow_image ]} ∅.

Definition batch_fs : filesystem :=
  FileSystem batch_world
    {[ "target" := ["w1"; "readme.md"];
       "target/w1" := ["PNG"; "Transparent_ Background"];
       "target/w1/PNG" := ["a.png"; "notes.txt"];
       "target/w1/Transparent_ Background" := ["a.JPG"] ]}.

(** A world whose input file holds the scenario image. *)
Definition world_with_scenario : world :=
  World {[ "in.png" := ImageFile scenario_image ]} ∅.

(** ** Vocabulary of the statements *)

(** The pixel at (x, y) exists and is not background. *)
Definition content_at (img : image) (threshold : Z) (crop_transparent : bool)
    (x y : Z) : Prop :=
  ∃ p, pixel_at img x y = Some p ∧ is_background crop_transparent p threshold = false.

(** Row [y] (column [x]) contains at least one non-background pixel. *)
Definition row_has_content (img : image) (threshold : Z) (crop_transparent : bool)
    (y : Z) : Prop :=
  ∃ x, content_at img threshold crop_transparent x y.

Definition col_has_content (img : image) (threshold : Z) (crop_transparent : bool)
    (x : Z) : Prop :=
  ∃ y, content_at img threshold crop_transparent x y.

(** Every pixel of the image is background. *)
Definition all_background (img : image) (threshold : Z) (crop_transparent : bool) : Prop :=
  ∀ x y p, pixel_at img x y = Some p → is_background crop_transparent p threshold = true.

(** [t] is the first of the lines 0, 1, ..., n-1 with content, or [n] when
    none has. *)
Definition first_counting_up (content : Z → Prop) (n t : Z) : Prop :=
  (0 ≤ t < n ∧ content t ∧ ∀ i, 0 ≤ i < t → ¬ content i)
  ∨ (t = n ∧ ∀ i, 0 ≤ i < n → ¬ content i).

(** [t] is the first of the lines n-1, n-2, ..., 0 with content, or [-1]
    when none has. *)
Definition first_counting_down (content : Z → Prop) (n t : Z) : Prop :=
  (0 ≤ t < n ∧ content t ∧ ∀ i, t < i < n → ¬ content i)
  ∨ (t = -1 ∧ ∀ i, 0 ≤ i < n → ¬ content i).

(** The four lines that bound the content of an image, as (top, bottom,
    left, right): the first row with content counting up and counting down,
    and the first column with content counting up and counting down. *)
Definition bounding_lines (img : image) (threshold : Z) (crop_transparent : bool)
    (bounds : Z * Z * Z * Z) : Prop :=
  let '(top, bottom, left_, right_) := bounds in
  first_counting_up (row_has_content img threshold crop_transparent) (height img) top
  ∧ first_counting_down (row_has_content img threshold crop_transparent) (height img) bottom
  ∧ first_counting_up (col_has_content img threshold crop_transparent) (width img) left_
  ∧ first_counting_down (col_has_content img threshold crop_transparent) (width img) right_.

(** All the content of the image lies in row [y] (in column [x]). *)
Definition content_in_row (img : image) (threshold : Z) (crop_transparent : bool)
    (y : Z) : Prop :=
  ∀ x' y', content_at img threshold crop_transparent x' y' → y' = y.

Definition content_in_col (img : image) (threshold : Z) (crop_transparent : bool)
    (x : Z) : Prop :=
  ∀ x' y', content_at img threshold crop_transparent x' y' → x' = x.

(** Where a crop of [cropped_width] x [cropped_height] pixels sits in the
    square canvas: the numbers of canvas columns to its left, of rows above
    it, of columns to its right and of rows below it. *)
Definition edge_offsets (cropped_width cropped_height padding : Z) : Z * Z * Z * Z :=
  let '(ox, oy) := paste_position cropped_width cropped_height padding in
  let square_size := Z.max cropped_width cropped_height + padding * 2 in
  (ox, oy, square_size - (ox + cropped_width), square_size - (oy + cropped_height)).

(** The channels of every pixel are bytes, as in an array of [uint8]. *)
Definition uint8_pixel (p : pixel) : Prop :=
  0 ≤ red p ≤ 255 ∧ 0 ≤ green p ≤ 255 ∧ 0 ≤ blue p ≤ 255 ∧ 0 ≤ alpha p ≤ 255.

Definition uint8_image (img : image) : Prop :=
  ∀ x y p, pixel_at img x y = Some p → uint8_pixel p.

(** A name as [os.listdir] gives it: not empty and without a separator. *)
Definition valid_name (name : string) : bool :=
  negb (String.eqb name "") && negb (contains "/"%char name).

Definition valid_listings (fs : filesystem) : Prop :=
  ∀ dir names name,
    fs_dirs fs !! dir = Some names → name ∈ names → valid_name name = true.

(** The path of an entry [file] of the folder [sub] of the product folder
    [folder] of the target directory. *)
Definition path_in (target_dir folder sub file : string) : string :=
  os_path_join (os_path_join (os_path_join target_dir folder) sub) file.

(** The path [process_folder] writes for the image [file] of [folder]. *)
Definition output_path (target_dir folder file : string) : string :=
  path_in target_dir folder "Resized" (output_filename file).

(** [path] is the output path of some image name of some product folder. *)
Definition is_output_path (target_dir path : string) : Prop :=
  ∃ folder file,
    valid_name folder = true ∧ valid_name file = true
    ∧ has_image_extension file = true
    ∧ path = output_path target_dir folder file.

(** From [fs] to [fs'] no file changed except at paths that satisfy [P],
    and the paths that cannot be written are the same. *)
Definition unchanged_outside (P : string → Prop) (fs fs' : filesystem) : Prop :=
  read_only (fs_world fs') = read_only (fs_world fs)
  ∧ ∀ path, ¬ P path → files (fs_world fs') !! path = files (fs_world fs) !! path.

(** The boundary test of line 78. *)
Definition degenerate (bounds : Z * Z * Z * Z) : Prop :=
  let '(top, bottom, left_, right_) := bounds in top >= bottom ∨ left_ >= right_.

(** The line-is-background tests without the array access: a position with
    no pixel counts as background. *)
Definition background_at (img : image) (threshold : Z) (crop_transparent : bool)
    (x y : Z) : bool :=
  match pixel_at img x y with
  | Some p => is_background crop_transparent p threshold
  | None => true
  end.

Definition row_background (img : image) (threshold : Z) (crop_transparent : bool)
    (y : Z) : bool :=
  forallb (λ x, background_at img threshold crop_transparent x y) (range (width img)).

Definition col_background (img : image) (threshold : Z) (crop_transparent : bool)
    (x : Z) : bool :=
  forallb (λ y, background_at img threshold crop_transparent x y) (range (height img)).

(** * Properties *)

(** ** The result monad and the loops *)

Lemma bind_Ok {A B} (m : result A) (f : A → result B) (b : B) :
  m ≫= f = Ok b ↔ ∃ a, m = Ok a ∧ f a = Ok b.
Proof.
  destruct m; simpl; split; try (intros [a' [? ?]]); try discriminate; eauto.
  by simplify_eq.
Qed.

Lemma all_gen_pure (xs : list Z) (f : Z → result bool) (g : Z → bool) :
  (∀ x, x ∈ xs → f x = Ok (g x)) → all_gen xs f = Ok (forallb g xs).
Proof.
  induction xs as [|x xs IH]; intros Hf; simpl; [done|].
  rewrite (Hf x) by left. simpl.
  destruct (g x); simpl; [|done].
  apply IH. intros y Hy. apply Hf. by right.
Qed.

Lemma all_gen_no_diverge (xs : list Z) (f : Z → result bool) :
  (∀ x, f x ≠ Diverge) → all_gen xs f ≠ Diverge.
Proof.
  intros Hf. induction xs as [|x xs IH]; simpl; [done|].
  specialize (Hf x). destruct (f x) as [[]| |]; simpl; done.
Qed.

(** An upward scan from [s] over the lines below [n]. *)
Lemma scan_up_spec (P : Z → bool) (n : Z) (cond : Z → result bool) :
  (∀ i, 0 ≤ i < n → cond i = Ok (P i)) →
  (∀ i, n ≤ i → cond i = Ok false) →
  ∀ (fuel : nat) (s : Z), 0 ≤ s ≤ n → (Z.to_nat (n - s) < fuel)%nat →
  ∃ t, while_loop fuel cond (λ i, i + 1) s = Ok t
       ∧ s ≤ t ≤ n
       ∧ (∀ i, s ≤ i < t → P i = true)
       ∧ (t < n → P t = false).
Proof.
  intros Hin Hout. induction fuel as [|fuel IH]; intros s Hs Hfuel; [lia|].
  simpl. destruct (decide (s < n)) as [Hlt|Hge].
  - rewrite Hin by lia. simpl. destruct (P s) eqn:HP.
    + destruct (IH (s + 1)) as (t & Ht & Hr & Hall & Hstop); [lia|lia|].
      exists t. split; [done|]. split; [lia|]. split; [|done].
      intros i Hi. destruct (decide (i = s)) as [->|]; [done|]. apply Hall. lia.
    + exists s. split; [done|]. split; [lia|]. split; [|done]. intros i Hi. lia.
  - rewrite Hout by lia. simpl. exists s. split; [done|]. split; [lia|]. split; intros; lia.
Qed.

(** A downward scan from [s] over the lines from 0. *)
Lemma scan_down_spec (P : Z → bool) (n : Z) (cond : Z → result bool) :
  (∀ i, 0 ≤ i < n → cond i = Ok (P i)) →
  (∀ i, i < 0 → cond i = Ok false) →
  ∀ (fuel : nat) (s : Z), -1 ≤ s < n → (Z.to_nat (s + 1) < fuel)%nat →
  ∃ t, while_loop fuel cond (λ i, i - 1) s = Ok t
       ∧ -1 ≤ t ≤ s
       ∧ (∀ i, t < i ≤ s → P i = true)
       ∧ (0 ≤ t → P t = false).
Proof.
  intros Hin Hout. induction fuel as [|fuel IH]; intros s Hs Hfuel; [lia|].
  simpl. destruct (decide (0 ≤ s)) as [Hge|Hlt].
  - rewrite Hin by lia. simpl. destruct (P s) eqn:HP.
    + destruct (IH (s - 1)) as (t & Ht & Hr & Hall & Hstop); [lia|lia|].
      exists t. split; [done|]. split; [lia|]. split; [|done].
      intros i Hi. destruct (decide (i = s)) as [->|]; [done|]. apply Hall. lia.
    + exists s. split; [done|]. split; [lia|]. split; [|done]. intros i Hi. lia.
  - rewrite Hout by lia. simpl. exists s. split; [done|]. split; [lia|]. split; intros; lia.
Qed.

(** A scan whose condition always answers and is false past the bound
    leaves its loop within the fuel. *)
Lemma scan_up_no_diverge (n : Z) (cond : Z → result bool) :
  (∀ i, cond i ≠ Diverge) →
  (∀ i, n ≤ i → cond i = Ok false) →
  ∀ (fuel : nat) (s : Z), (Z.to_nat (n - s) < fuel)%nat →
  while_loop fuel cond (λ i, i + 1) s ≠ Diverge.
Proof.
  intros Hnd Hout. induction fuel as [|fuel IH]; intros s Hfuel; [lia|].
  simpl. destruct (decide (s < n)) as [Hlt|Hge].
  - specialize (Hnd s). destruct (cond s) as [[]| |]; simpl; try done.
    apply IH. lia.
  - by rewrite Hout by lia.
Qed.

Lemma scan_down_no_diverge (cond : Z → result bool) :
  (∀ i, cond i ≠ Diverge) →
  (∀ i, i < 0 → cond i = Ok false) →
  ∀ (fuel : nat) (s : Z), (Z.to_nat (s + 1) < fuel)%nat →
  while_loop fuel cond (λ i, i - 1) s ≠ Diverge.
Proof.
  intros Hnd Hout. induction fuel as [|fuel IH]; intros s Hfuel; [lia|].
  simpl. destruct (decide (0 ≤ s)) as [Hge|Hlt].
  - specialize (Hnd s). destruct (cond s) as [[]| |]; simpl; try done.
    apply IH. lia.
  - by rewrite Hout by lia.
Qed.

Lemma forallb_true_iff {A} (f : A → bool) (l : list A) :
  forallb f l = true ↔ ∀ x, x ∈ l → f x = true.
Proof.
  induction l as [|a l IH]; simpl.
  - split; [|done]. intros _ x Hx. by apply elem_of_nil in Hx.
  - rewrite andb_true_iff, IH. split.
    + intros [Ha Hl] x Hx. apply elem_of_cons in Hx as [->|Hx]; auto.
    + intros H. split; [apply H; left|intros x Hx; apply H; by right].
Qed.

Lemma forallb_false_iff {A} (f : A → bool) (l : list A) :
  forallb f l = false ↔ ∃ x, x ∈ l ∧ f x = false.
Proof.
  induction l as [|a l IH]; simpl.
  - split; [done|]. intros (x & Hx & _). by apply elem_of_nil in Hx.
  - rewrite andb_false_iff, IH. split.
    + intros [Ha|(x & Hx & Hf)]; [exists a; split; [left|done]|].
      exists x. split; [by right|done].
    + intros (x & Hx & Hf). apply elem_of_cons in Hx as [->|Hx]; eauto.
Qed.

(** ** Array accesses *)

Lemma elem_of_range (n k : Z) : k ∈ range n ↔ 0 ≤ k < n.
Proof. unfold range. rewrite elem_of_seqZ. lia. Qed.

Lemma pixel_at_lookup (img : image) (x y : Z) (p : pixel) :
  pixel_at img x y = Some p ↔
  0 ≤ x ∧ 0 ≤ y ∧ ∃ row, img_rows img !! Z.to_nat y = Some row ∧ row !! Z.to_nat x = Some p.
Proof.
  unfold pixel_at. destruct (0 <=? x) eqn:Hx, (0 <=? y) eqn:Hy; simpl;
    try (split; [done|intros (? & ? & _); lia]).
  destruct (img_rows img !! Z.to_nat y) as [row|]; simpl.
  - split; [intros H; split_and!; [lia|lia|eauto]|].
    intros (_ & _ & row' & ? & ?). by simplify_eq.
  - split; [done|]. by intros (_ & _ & row' & ? & _).
Qed.

Lemma pixel_at_range (img : image) (x y : Z) (p : pixel) :
  wf_image img → pixel_at img x y = Some p →
  0 ≤ x < width img ∧ 0 ≤ y < height img.
Proof.
  intros Hwf (Hx & Hy & row & Hrow & Hp)%pixel_at_lookup.
  pose proof (lookup_lt_Some _ _ _ Hrow) as Hlen.
  pose proof (lookup_lt_Some _ _ _ Hp) as Hlen'.
  unfold wf_image in Hwf. rewrite Forall_lookup in Hwf.
  rewrite (Hwf _ _ Hrow) in Hlen'. unfold width, height. lia.
Qed.

Lemma pixel_at_is_Some (img : image) (x y : Z) :
  wf_image img → 0 ≤ x < width img → 0 ≤ y < height img →
  is_Some (pixel_at img x y).
Proof.
  intros Hwf Hx Hy. unfold width, height in *.
  destruct (lookup_lt_is_Some_2 (img_rows img) (Z.to_nat y)) as [row Hrow]; [lia|].
  unfold wf_image in Hwf. rewrite Forall_lookup in Hwf.
  destruct (lookup_lt_is_Some_2 row (Z.to_nat x)) as [p Hp].
  { rewrite (Hwf _ _ Hrow). lia. }
  exists p. apply pixel_at_lookup. split_and!; [lia|lia|eauto].
Qed.

Lemma getitem_in_range (img : image) (row col : Z) :
  wf_image img → 0 ≤ row < height img → 0 ≤ col < width img →
  ∃ p, getitem img row col = Ok p ∧ pixel_at img col row = Some p.
Proof.
  intros Hwf Hrow Hcol.
  destruct (pixel_at_is_Some img col row Hwf Hcol Hrow) as [p Hp].
  exists p. split; [|done]. unfold getitem, normalize_index.
  replace ((0 <=? row) && (row <? height img)) with true by lia.
  replace ((0 <=? col) && (col <? width img)) with true by lia.
  simpl. by rewrite Hp.
Qed.

Lemma getitem_no_diverge (img : image) (row col : Z) :
  getitem img row col ≠ Diverge.
Proof.
  unfold getitem, normalize_index.
  repeat (case_match; simpl; try done).
Qed.

(** ** The line tests *)

Section line_tests.
Context (img : image) (threshold : Z) (crop_transparent : bool).
Hypothesis Hwf : wf_image img.

Lemma row_all_background_pure (y : Z) :
  0 ≤ y < height img →
  row_all_background img threshold crop_transparent y
  = Ok (row_background img threshold crop_transparent y).
Proof.
  intros Hy. apply all_gen_pure. intros x Hx%elem_of_range.
  destruct (getitem_in_range img y x) as (p & -> & Hp); [done..|].
  simpl. unfold background_at. by rewrite Hp.
Qed.

Lemma col_all_background_pure (x : Z) :
  0 ≤ x < width img →
  col_all_background img threshold crop_transparent x
  = Ok (col_background img threshold crop_transparent x).
Proof.
  intros Hx. apply all_gen_pure. intros y Hy%elem_of_range.
  destruct (getitem_in_range img y x) as (p & -> & Hp); [done..|].
  simpl. unfold background_at. by rewrite Hp.
Qed.

Lemma background_at_false (x y : Z) :
  background_at img threshold crop_transparent x y = false
  ↔ content_at img threshold crop_transparent x y.
Proof.
  unfold background_at, content_at. destruct (pixel_at img x y) as [p|].
  - split; [eauto|]. intros (p' & ? & ?). by simplify_eq.
  - split; [done|]. by intros (p' & ? & _).
Qed.

Lemma row_background_false (y : Z) :
  row_background img threshold crop_transparent y = false
  ↔ row_has_content img threshold crop_transparent y.
Proof.
  unfold row_background, row_has_content.
  rewrite forallb_false_iff. split.
  - intros (x & _ & Hx). exists x. by apply background_at_false.
  - intros (x & Hx). exists x. split; [|by apply background_at_false].
    destruct Hx as (p & Hp & _). apply elem_of_range.
    by destruct (pixel_at_range img x y p).
Qed.

Lemma col_background_false (x : Z) :
  col_background img threshold crop_transparent x = false
  ↔ col_has_content img threshold crop_transparent x.
Proof.
  unfold col_background, col_has_content.
  rewrite forallb_false_iff. split.
  - intros (y & _ & Hy). exists y. by apply background_at_false.
  - intros (y & Hy). exists y. split; [|by apply background_at_false].
    destruct Hy as (p & Hp & _). apply elem_of_range.
    by destruct (pixel_at_range img x y p).
Qed.

Lemma row_background_true (y : Z) :
  row_background img threshold crop_transparent y = true
  ↔ ¬ row_has_content img threshold crop_transparent y.
Proof. rewrite <- row_background_false. by destruct (row_background _ _ _ _). Qed.

Lemma col_background_true (x : Z) :
  col_background img threshold crop_transparent x = true
  ↔ ¬ col_has_content img threshold crop_transparent x.
Proof. rewrite <- col_background_false. by destruct (col_background _ _ _ _). Qed.

End line_tests.

(** ** The boundary scans *)

Lemma first_counting_up_intro (P : Z → bool) (content : Z → Prop) (n t : Z) :
  (∀ i, P i = false ↔ content i) →
  0 ≤ t ≤ n → (∀ i, 0 ≤ i < t → P i = true) → (t < n → P t = false) →
  first_counting_up content n t.
Proof.
  intros HP Ht Hbefore Hstop.
  assert (∀ i, 0 ≤ i < t → ¬ content i) as Hno.
  { intros i Hi Hc%HP. rewrite Hbefore in Hc; [done|lia]. }
  destruct (decide (t < n)) as [Hlt|Hge].
  - left. split; [lia|]. split; [apply HP; auto|done].
  - right. split; [lia|]. intros i Hi. apply Hno. lia.
Qed.

Lemma first_counting_down_intro (P : Z → bool) (content : Z → Prop) (n t : Z) :
  (∀ i, P i = false ↔ content i) →
  -1 ≤ t < n → (∀ i, t < i ≤ n - 1 → P i = true) → (0 ≤ t → P t = false) →
  first_counting_down content n t.
Proof.
  intros HP Ht Hafter Hstop.
  assert (∀ i, t < i < n → ¬ content i) as Hno.
  { intros i Hi Hc%HP. rewrite Hafter in Hc; [done|lia]. }
  destruct (decide (0 ≤ t)) as [Hge|Hlt].
  - left. split; [lia|]. split; [apply HP; auto|done].
  - right. split; [lia|]. intros i Hi. apply Hno. lia.
Qed.

Lemma first_counting_up_unique (content : Z → Prop) (n t t' : Z) :
  first_counting_up content n t → first_counting_up content n t' → t = t'.
Proof.
  intros [(Ht & Hc & Hno)|[-> Hno]] [(Ht' & Hc' & Hno')|[-> Hno']]; [|exfalso..|done].
  - destruct (Z.lt_trichotomy t t') as [?|[?|?]]; [|done|].
    + destruct (Hno' t); [lia|done].
    + destruct (Hno t'); [lia|done].
  - by apply (Hno' t).
  - by apply (Hno t').
Qed.

Lemma first_counting_down_unique (content : Z → Prop) (n t t' : Z) :
  first_counting_down content n t → first_counting_down content n t' → t = t'.
Proof.
  intros [(Ht & Hc & Hno)|[-> Hno]] [(Ht' & Hc' & Hno')|[-> Hno']]; [|exfalso..|done].
  - destruct (Z.lt_trichotomy t t') as [?|[?|?]]; [|done|].
    + destruct (Hno t'); [lia|done].
    + destruct (Hno' t); [lia|done].
  - by apply (Hno' t).
  - by apply (Hno t').
Qed.

Lemma bounding_lines_unique (img : image) (threshold : Z) (crop_transparent : bool)
    (b1 b2 : Z * Z * Z * Z) :
  bounding_lines img threshold crop_transparent b1 →
  bounding_lines img threshold crop_transparent b2 → b1 = b2.
Proof.
  destruct b1 as [[[t1 bo1] l1] r1], b2 as [[[t2 bo2] l2] r2]. simpl.
  intros (Ht1 & Hb1 & Hl1 & Hr1) (Ht2 & Hb2 & Hl2 & Hr2).
  rewrite (first_counting_up_unique _ _ _ _ Ht1 Ht2).
  rewrite (first_counting_down_unique _ _ _ _ Hb1 Hb2).
  rewrite (first_counting_up_unique _ _ _ _ Hl1 Hl2).
  by rewrite (first_counting_down_unique _ _ _ _ Hr1 Hr2).
Qed.

Section scan_results.
Context (img : image) (threshold : Z) (crop_transparent : bool).
Hypothesis Hwf : wf_image img.

Lemma find_top_spec :
  ∃ top, find_top img threshold crop_transparent = Ok top
    ∧ first_counting_up (row_has_content img threshold crop_transparent) (height img) top.
Proof.
  destruct (scan_up_spec (row_background img threshold crop_transparent) (height img)
    (λ top, if top <? height img
            then row_all_background img threshold crop_transparent top else Ok false))
    with (fuel := scan_fuel img) (s := 0) as (t & Ht & Hr & Hall & Hstop).
  - intros i Hi. replace (i <? height img) with true by lia.
    by apply row_all_background_pure.
  - intros i Hi. by replace (i <? height img) with false by lia.
  - unfold height. lia.
  - unfold scan_fuel. lia.
  - exists t. split; [done|].
    eapply first_counting_up_intro; [apply row_background_false; done|lia|..]; auto.
Qed.

Lemma find_bottom_spec :
  ∃ bottom, find_bottom img threshold crop_transparent = Ok bottom
    ∧ first_counting_down (row_has_content img threshold crop_transparent) (height img) bottom.
Proof.
  destruct (scan_down_spec (row_background img threshold crop_transparent) (height img)
    (λ bottom, if bottom >=? 0
               then row_all_background img threshold crop_transparent bottom else Ok false))
    with (fuel := scan_fuel img) (s := height img - 1) as (t & Ht & Hr & Hall & Hstop).
  - intros i Hi. replace (i >=? 0) with true by lia.
    by apply row_all_background_pure.
  - intros i Hi. by replace (i >=? 0) with false by lia.
  - unfold height. lia.
  - unfold scan_fuel. lia.
  - exists t. split; [done|].
    eapply first_counting_down_intro; [apply row_background_false; done|lia|..]; auto.
Qed.

Lemma find_left_spec :
  ∃ left_, find_left img threshold crop_transparent = Ok left_
    ∧ first_counting_up (col_has_content img threshold crop_transparent) (width img) left_.
Proof.
  destruct (scan_up_spec (col_background img threshold crop_transparent) (width img)
    (λ left_, if left_ <? width img
              then col_all_background img threshold crop_transparent left_ else Ok false))
    with (fuel := scan_fuel img) (s := 0) as (t & Ht & Hr & Hall & Hstop).
  - intros i Hi. replace (i <? width img) with true by lia.
    by apply col_all_background_pure.
  - intros i Hi. by replace (i <? width img) with false by lia.
  - unfold width. lia.
  - unfold scan_fuel. lia.
  - exists t. split; [done|].
    eapply first_counting_up_intro; [apply col_background_false; done|lia|..]; auto.
Qed.

Lemma find_right_spec :
  ∃ right_, find_right img threshold crop_transparent = Ok right_
    ∧ first_counting_down (col_has_content img threshold crop_transparent) (width img) right_.
Proof.
  destruct (scan_down_spec (col_background img threshold crop_transparent) (width img)
    (λ right_, if right_ >=? 0
               then col_all_background img threshold crop_transparent right_ else Ok false))
    with (fuel := scan_fuel img) (s := width img - 1) as (t & Ht & Hr & Hall & Hstop).
  - intros i Hi. replace (i >=? 0) with true by lia.
    by apply col_all_background_pure.
  - intros i Hi. by replace (i >=? 0) with false by lia.
  - unfold width. lia.
  - unfold scan_fuel. lia.
  - exists t. split; [done|].
    eapply first_counting_down_intro; [apply col_background_false; done|lia|..]; auto.
Qed.

Lemma find_boundaries_spec :
  ∃ bounds, find_boundaries img threshold crop_transparent = Ok bounds
    ∧ bounding_lines img threshold crop_transparent bounds.
Proof.
  destruct find_top_spec as (t & Ht & ?), find_bottom_spec as (b & Hb & ?),
    find_left_spec as (l & Hl & ?), find_right_spec as (r & Hr & ?).
  exists (t, b, l, r). unfold find_boundaries. rewrite Ht, Hb, Hl, Hr. simpl.
  by split_and!.
Qed.

Lemma find_boundaries_eq (bounds : Z * Z * Z * Z) :
  bounding_lines img threshold crop_transparent bounds →
  find_boundaries img threshold crop_transparent = Ok bounds.
Proof.
  intros Hb. destruct find_boundaries_spec as (bounds' & -> & Hb').
  f_equal. by eapply bounding_lines_unique.
Qed.

Lemma find_boundaries_inv (bounds : Z * Z * Z * Z) :
  find_boundaries img threshold crop_transparent = Ok bounds →
  bounding_lines img threshold crop_transparent bounds.
Proof.
  intros Hb. destruct find_boundaries_spec as (bounds' & Heq & Hb').
  rewrite Hb in Heq. by simplify_eq.
Qed.

End scan_results.

(** ** The PIL operations *)

Lemma pixel_at_nonneg (img : image) (x y : Z) :
  0 ≤ x → 0 ≤ y →
  pixel_at img x y = img_rows img !! Z.to_nat y ≫= (λ row, row !! Z.to_nat x).
Proof.
  intros Hx Hy. unfold pixel_at.
  by replace ((0 <=? x) && (0 <=? y)) with true by lia.
Qed.

Lemma pixel_at_outside (img : image) (x y : Z) :
  wf_image img → ¬ (0 ≤ x < width img ∧ 0 ≤ y < height img) →
  pixel_at img x y = None.
Proof.
  intros Hwf Hout. destruct (pixel_at img x y) as [p|] eqn:Hp; [|done].
  destruct Hout. by eapply pixel_at_range.
Qed.

Lemma img_crop_spec (img : image) (x0 y0 x1 y1 : Z) :
  x0 ≤ x1 → y0 ≤ y1 →
  ∃ out, img_crop img (x0, y0, x1, y1) = Ok out
    ∧ wf_image out
    ∧ size out = (x1 - x0, y1 - y0)
    ∧ ∀ x y, 0 ≤ x < x1 - x0 → 0 ≤ y < y1 - y0 →
        pixel_at out x y = Some (default transparent (pixel_at img (x0 + x) (y0 + y))).
Proof.
  intros Hx Hy. unfold img_crop.
  replace ((x1 <? x0) || (y1 <? y0)) with false by lia.
  eexists. split; [done|]. split_and!.
  - unfold wf_image. simpl. apply Forall_fmap, Forall_forall. intros y _. simpl.
    by rewrite length_fmap, length_seqZ.
  - unfold size, width, height. simpl. rewrite length_fmap, length_seqZ.
    f_equal; lia.
  - intros x y Hx' Hy'. rewrite pixel_at_nonneg by lia. simpl.
    rewrite list_lookup_fmap, lookup_seqZ_lt by lia. simpl.
    rewrite list_lookup_fmap, lookup_seqZ_lt by lia. simpl.
    by rewrite !Z2Nat.id by lia.
Qed.

(** Two well-formed images of the same size with the same pixels are the
    same image. *)
Lemma image_eq (img1 img2 : image) :
  wf_image img1 → wf_image img2 → size img1 = size img2 →
  (∀ x y, 0 ≤ x < width img1 → 0 ≤ y < height img1 →
          pixel_at img1 x y = pixel_at img2 x y) →
  img1 = img2.
Proof.
  destruct img1 as [w1 rows1], img2 as [w2 rows2].
  unfold wf_image, size, width, height. simpl.
  intros Hwf1 Hwf2 Hsize Hpix.
  assert (w1 = w2) as -> by (simplify_eq; lia).
  assert (length rows1 = length rows2) as Hlen by (simplify_eq; lia).
  f_equal. apply list_eq_same_length with (length rows1); [done..|].
  intros i row1 row2 Hi Hrow1 Hrow2.
  rewrite Forall_lookup in Hwf1, Hwf2.
  pose proof (Hwf1 _ _ Hrow1) as Hl1. pose proof (Hwf2 _ _ Hrow2) as Hl2.
  apply list_eq_same_length with w2; [done..|].
  intros j p1 p2 Hj Hp1 Hp2.
  specialize (Hpix (Z.of_nat j) (Z.of_nat i)).
  rewrite !pixel_at_nonneg in Hpix by lia. simpl in Hpix.
  rewrite !Nat2Z.id, Hrow1, Hrow2 in Hpix. simpl in Hpix.
  rewrite Hp1, Hp2 in Hpix. assert (Some p1 = Some p2) as Heq by (apply Hpix; lia).
  by simplify_eq.
Qed.

(** Cropping to the whole image gives the image back. *)
Lemma img_crop_full (img : image) :
  wf_image img → img_crop img (0, 0, width img, height img) = Ok img.
Proof.
  intros Hwf.
  destruct (img_crop_spec img 0 0 (width img) (height img))
    as (out & -> & Hwfo & Hsize & Hpix); [unfold width; lia|unfold height; lia|].
  f_equal. rewrite !Z.sub_0_r in *. unfold size in Hsize.
  assert (width out = width img ∧ height out = height img) as [Hw Hh]
    by (by simplify_eq).
  apply image_eq; [done|done|unfold size; congruence|].
  intros x y Hx Hy. rewrite Hpix by lia. rewrite !Z.add_0_l.
  destruct (pixel_at_is_Some img x y) as [p ->]; [done|lia|lia|done].
Qed.

Lemma Image_new_spec (w h : Z) (color : pixel) :
  0 ≤ w → 0 ≤ h →
  ∃ out, Image_new (w, h) color = Ok out
    ∧ wf_image out
    ∧ size out = (w, h)
    ∧ ∀ x y, 0 ≤ x < w → 0 ≤ y < h → pixel_at out x y = Some color.
Proof.
  intros Hw Hh. unfold Image_new.
  replace ((w <? 0) || (h <? 0)) with false by lia.
  eexists. split; [done|]. split_and!.
  - unfold wf_image. simpl. apply Forall_replicate. by rewrite length_replicate.
  - unfold size, width, height. simpl. rewrite length_replicate. f_equal; lia.
  - intros x y Hx Hy. rewrite pixel_at_nonneg by lia. simpl.
    rewrite lookup_replicate_2 by lia. simpl.
    by rewrite lookup_replicate_2 by lia.
Qed.

Lemma img_paste_spec (canvas im : image) (ox oy : Z) :
  wf_image canvas →
  wf_image (img_paste canvas im (ox, oy))
  ∧ size (img_paste canvas im (ox, oy)) = size canvas
  ∧ ∀ x y p, pixel_at canvas x y = Some p →
      pixel_at (img_paste canvas im (ox, oy)) x y
      = Some (default p (pixel_at im (x - ox) (y - oy))).
Proof.
  intros Hwf. split_and!.
  - unfold wf_image in *. simpl. rewrite Forall_lookup in Hwf.
    apply Forall_lookup. intros i row Hrow.
    rewrite list_lookup_imap in Hrow.
    destruct (img_rows canvas !! i) as [row'|] eqn:Hrow'; simplify_eq/=.
    rewrite length_imap. eauto.
  - unfold size, width, height. simpl. by rewrite length_imap.
  - intros x y p (Hx & Hy & row & Hrow & Hp)%pixel_at_lookup.
    rewrite pixel_at_nonneg by lia. simpl.
    rewrite list_lookup_imap, Hrow. simpl.
    rewrite list_lookup_imap, Hp. simpl.
    by rewrite !Z2Nat.id by lia.
Qed.

(** ** Cropping *)

Lemma bounding_lines_range (img : image) (threshold : Z) (crop_transparent : bool)
    (top bottom left_ right_ : Z) :
  bounding_lines img threshold crop_transparent (top, bottom, left_, right_) →
  0 ≤ top ≤ height img ∧ -1 ≤ bottom < height img
  ∧ 0 ≤ left_ ≤ width img ∧ -1 ≤ right_ < width img.
Proof.
  intros ([[? _]|[-> _]] & [[? _]|[-> _]] & [[? _]|[-> _]] & [[? _]|[-> _]]);
    unfold height, width in *; lia.
Qed.

(** Content lies within the four boundaries. *)
Lemma content_within_bounds (img : image) (threshold : Z) (crop_transparent : bool)
    (top bottom left_ right_ x y : Z) :
  wf_image img →
  bounding_lines img threshold crop_transparent (top, bottom, left_, right_) →
  content_at img threshold crop_transparent x y →
  top ≤ y ≤ bottom ∧ left_ ≤ x ≤ right_.
Proof.
  intros Hwf (Ht & Hb & Hl & Hr) Hc.
  assert (0 ≤ x < width img ∧ 0 ≤ y < height img) as [Hx Hy].
  { destruct Hc as (p & Hp & _). by eapply pixel_at_range. }
  assert (row_has_content img threshold crop_transparent y) as Hrow by (by exists x).
  assert (col_has_content img threshold crop_transparent x) as Hcol by (by exists y).
  split_and!.
  - destruct Ht as [(_ & _ & Hno)|[_ Hno]]; [|by destruct (Hno y)].
    destruct (decide (top ≤ y)); [done|]. destruct (Hno y); [lia|done].
  - destruct Hb as [(_ & _ & Hno)|[_ Hno]]; [|by destruct (Hno y)].
    destruct (decide (y ≤ bottom)); [done|]. destruct (Hno y); [lia|done].
  - destruct Hl as [(_ & _ & Hno)|[_ Hno]]; [|by destruct (Hno x)].
    destruct (decide (left_ ≤ x)); [done|]. destruct (Hno x); [lia|done].
  - destruct Hr as [(_ & _ & Hno)|[_ Hno]]; [|by destruct (Hno x)].
    destruct (decide (x ≤ right_)); [done|]. destruct (Hno x); [lia|done].
Qed.

Lemma crop_degenerate (img : image) (threshold : Z) (crop_transparent make_square : bool)
    (padding : Z) (bounds : Z * Z * Z * Z) :
  find_boundaries img threshold crop_transparent = Ok bounds →
  degenerate bounds →
  crop img threshold crop_transparent make_square padding = Ok (Unchanged img).
Proof.
  intros Hb Hdeg. unfold crop. rewrite Hb. simpl.
  destruct bounds as [[[top bottom] left_] right_]. simpl in Hdeg.
  by replace ((top >=? bottom) || (left_ >=? right_)) with true by lia.
Qed.

Lemma crop_nondegenerate (img : image) (threshold : Z)
    (crop_transparent make_square : bool) (padding top bottom left_ right_ : Z) :
  find_boundaries img threshold crop_transparent = Ok (top, bottom, left_, right_) →
  top < bottom → left_ < right_ →
  crop img threshold crop_transparent make_square padding
  = (cropped_img ← img_crop img (left_, top, right_ + 1, bottom + 1);
     if make_square
     then square_img ← make_square_image cropped_img padding; Ok (Cropped square_img)
     else Ok (Cropped cropped_img)).
Proof.
  intros Hb Ht Hl. unfold crop. rewrite Hb. simpl.
  by replace ((top >=? bottom) || (left_ >=? right_)) with false by lia.
Qed.

(** The crop of line 88 succeeds and holds the pixels of the box. *)
Lemma cropped_content (img : image) (threshold : Z) (crop_transparent : bool)
    (top bottom left_ right_ : Z) :
  wf_image img →
  bounding_lines img threshold crop_transparent (top, bottom, left_, right_) →
  top < bottom → left_ < right_ →
  ∃ cropped_img,
    img_crop img (left_, top, right_ + 1, bottom + 1) = Ok cropped_img
    ∧ wf_image cropped_img
    ∧ size cropped_img = (right_ + 1 - left_, bottom + 1 - top)
    ∧ ∀ x y, 0 ≤ x < right_ + 1 - left_ → 0 ≤ y < bottom + 1 - top →
        pixel_at cropped_img x y = pixel_at img (left_ + x) (top + y).
Proof.
  intros Hwf Hb Ht Hl.
  destruct (img_crop_spec img left_ top (right_ + 1) (bottom + 1))
    as (out & Hout & Hwfo & Hsize & Hpix); [lia..|].
  apply bounding_lines_range in Hb as (? & ? & ? & ?).
  exists out. split_and!; [done..|].
  intros x y Hx Hy. rewrite Hpix by done.
  destruct (pixel_at_is_Some img (left_ + x) (top + y)) as [p ->]; [done|lia|lia|done].
Qed.

(** An outcome of the non-degenerate branch is never [Unchanged]. *)
Lemma crop_nondegenerate_not_Unchanged (img : image) (threshold : Z)
    (crop_transparent make_square : bool) (padding top bottom left_ right_ : Z)
    (out : image) :
  find_boundaries img threshold crop_transparent = Ok (top, bottom, left_, right_) →
  top < bottom → left_ < right_ →
  crop img threshold crop_transparent make_square padding ≠ Ok (Unchanged out).
Proof.
  intros Hb Ht Hl. rewrite (crop_nondegenerate _ _ _ _ _ _ _ _ _ Hb Ht Hl).
  destruct (img_crop _ _) as [c| |]; simpl; [|done..].
  destruct make_square; [|done].
  by destruct (make_square_image _ _) as [s| |].
Qed.

(** C2. A pixel is background exactly when transparency counts as
    background and its alpha is 0, or its red, green and blue channels all
    reach the threshold.  So with transparency counted, a pixel of alpha 0
    is background whatever its colour, and a pixel of any other alpha is
    background only if the three colour channels reach the threshold. *)
Theorem is_background_classification (crop_transparent : bool) (p : pixel) (threshold : Z) :
  (is_background crop_transparent p threshold = true
   ↔ (crop_transparent = true ∧ alpha p = 0)
     ∨ (red p >= threshold ∧ green p >= threshold ∧ blue p >= threshold))
  ∧ (∀ r g b, is_background true (Pixel r g b 0) threshold = true)
  ∧ (alpha p ≠ 0 →
     (is_background crop_transparent p threshold = true
      ↔ red p >= threshold ∧ green p >= threshold ∧ blue p >= threshold)).
Proof.
  unfold is_background. split_and!.
  - destruct crop_transparent, (alpha p =? 0) eqn:Ha; simpl;
      rewrite ?andb_true_iff, ?Z.geb_le; split; intros; try (right; lia); try lia;
      try (left; split; [done|lia]).
  - done.
  - intros Ha. replace (alpha p =? 0) with false by lia.
    rewrite andb_false_r. simpl. rewrite ?andb_true_iff, ?Z.geb_le. lia.
Qed.

(** C1. On every RGBA image the four scans return: as top, the first row
    counting up from 0 that holds a non-background pixel; as bottom, the
    first such row counting down from height-1; as left and right, the same
    for the columns; and when no line holds such a pixel, top = height,
    bottom = -1, left = width and right = -1. *)
Theorem boundary_scans_find_first_lines (img : image) (threshold : Z)
    (crop_transparent : bool) :
  wf_image img →
  ∃ top bottom left_ right_,
    find_boundaries img threshold crop_transparent = Ok (top, bottom, left_, right_)
    ∧ first_counting_up (row_has_content img threshold crop_transparent) (height img) top
    ∧ first_counting_down (row_has_content img threshold crop_transparent) (height img) bottom
    ∧ first_counting_up (col_has_content img threshold crop_transparent) (width img) left_
    ∧ first_counting_down (col_has_content img threshold crop_transparent) (width img) right_
    ∧ ((∀ x y, ¬ content_at img threshold crop_transparent x y) →
       top = height img ∧ bottom = -1 ∧ left_ = width img ∧ right_ = -1).
Proof.
  intros Hwf.
  destruct (find_boundaries_spec img threshold crop_transparent Hwf)
    as ([[[top bottom] left_] right_] & Hb & Ht & Hbo & Hl & Hr).
  exists top, bottom, left_, right_. split_and!; [done..|].
  intros Hnone.
  destruct Ht as [(_ & [x Hc] & _)|[-> _]]; [by destruct (Hnone x top)|].
  destruct Hbo as [(_ & [x Hc] & _)|[-> _]]; [by destruct (Hnone x bottom)|].
  destruct Hl as [(_ & [y Hc] & _)|[-> _]]; [by destruct (Hnone left_ y)|].
  destruct Hr as [(_ & [y Hc] & _)|[-> _]]; [by destruct (Hnone right_ y)|].
  done.
Qed.

Lemma wf_scenario_image : wf_image scenario_image.
Proof. apply (bool_decide_unpack (wf_image scenario_image)). vm_compute. exact I. Defined.

Lemma boundary_scans_find_first_lines_witness :
  wf_image scenario_image ∧
  ∃ top bottom left_ right_,
    find_boundaries scenario_image 240 true = Ok (top, bottom, left_, right_)
    ∧ first_counting_up (row_has_content scenario_image 240 true) (height scenario_image) top
    ∧ first_counting_down (row_has_content scenario_image 240 true) (height scenario_image) bottom
    ∧ first_counting_up (col_has_content scenario_image 240 true) (width scenario_image) left_
    ∧ first_counting_down (col_has_content scenario_image 240 true) (width scenario_image) right_
    ∧ ((∀ x y, ¬ content_at scenario_image 240 true x y) →
       top = height scenario_image ∧ bottom = -1
       ∧ left_ = width scenario_image ∧ right_ = -1).
Proof.
  split; [exact wf_scenario_image|].
  exact (boundary_scans_find_first_lines scenario_image 240 true wf_scenario_image).
Defined.

(** C3. When the scans give top < bottom and left < right, the crop is the
    sub-image with the half-open box (left, top, right+1, bottom+1): it is
    right+1-left wide and bottom+1-top high and its pixel (x, y) is the
    pixel (left+x, top+y) of the input, so the row [bottom] and the column
    [right] are part of it.  On the 10x10 white image with a black block
    from (3,3) to (6,6), threshold 240 and no squaring, the box is
    (3,3,7,7) and the output is the 4x4 black block. *)
Theorem crop_extracts_inclusive_box :
  (∀ img threshold crop_transparent padding top bottom left_ right_,
     wf_image img →
     find_boundaries img threshold crop_transparent = Ok (top, bottom, left_, right_) →
     top < bottom → left_ < right_ →
     ∃ cropped_img,
       img_crop img (left_, top, right_ + 1, bottom + 1) = Ok cropped_img
       ∧ crop img threshold crop_transparent false padding = Ok (Cropped cropped_img)
       ∧ size cropped_img = (right_ + 1 - left_, bottom + 1 - top)
       ∧ ∀ x y, 0 ≤ x < right_ + 1 - left_ → 0 ≤ y < bottom + 1 - top →
           pixel_at cropped_img x y = pixel_at img (left_ + x) (top + y))
  ∧ find_boundaries scenario_image 240 true = Ok (3, 6, 3, 6)
  ∧ crop_box (3, 6, 3, 6) = (3, 3, 7, 7)
  ∧ (∀ crop_transparent padding,
       crop scenario_image 240 crop_transparent false padding = Ok (Cropped black_4x4))
  ∧ size black_4x4 = (4, 4).
Proof.
  split_and!.
  - intros img threshold crop_transparent padding top bottom left_ right_ Hwf Hb Ht Hl.
    pose proof (find_boundaries_inv _ _ _ Hwf _ Hb) as Hlines.
    destruct (cropped_content _ _ _ _ _ _ _ Hwf Hlines Ht Hl)
      as (cropped_img & Hcrop & _ & Hsize & Hpix).
    exists cropped_img. split_and!; [done| |done..].
    rewrite (crop_nondegenerate _ _ _ _ _ _ _ _ _ Hb Ht Hl), Hcrop. done.
  - by vm_compute.
  - done.
  - intros [] padding; by vm_compute.
  - done.
Qed.

Lemma crop_extracts_inclusive_box_witness :
  wf_image scenario_image
  ∧ find_boundaries scenario_image 240 true = Ok (3, 6, 3, 6)
  ∧ 3 < 6
  ∧ ∃ cropped_img,
      img_crop scenario_image (3, 3, 6 + 1, 6 + 1) = Ok cropped_img
      ∧ crop scenario_image 240 true false 0 = Ok (Cropped cropped_img)
      ∧ size cropped_img = (6 + 1 - 3, 6 + 1 - 3)
      ∧ ∀ x y, 0 ≤ x < 6 + 1 - 3 → 0 ≤ y < 6 + 1 - 3 →
          pixel_at cropped_img x y = pixel_at scenario_image (3 + x) (3 + y).
Proof.
  assert (find_boundaries scenario_image 240 true = Ok (3, 6, 3, 6)) as Hb
    by (vm_compute; reflexivity).
  assert (3 < 6) as Hlt by lia.
  split; [exact wf_scenario_image|]. split; [exact Hb|]. split; [exact Hlt|].
  exact (proj1 crop_extracts_inclusive_box scenario_image 240 true 0 3 6 3 6
           wf_scenario_image Hb Hlt Hlt).
Defined.

(** With no content the scans run to the end and the test of line 78
    holds. *)
Lemma crop_all_background (img : image) (threshold : Z)
    (crop_transparent make_square : bool) (padding : Z) :
  wf_image img → all_background img threshold crop_transparent →
  crop img threshold crop_transparent make_square padding = Ok (Unchanged img).
Proof.
  intros Hwf Hall.
  destruct (find_boundaries_spec img threshold crop_transparent Hwf)
    as ([[[top bottom] left_] right_] & Hb & Ht & Hbo & _).
  eapply crop_degenerate; [done|]. simpl. left.
  destruct Ht as [(_ & (x & p & Hp & Hbg) & _)|[-> _]].
  { rewrite (Hall _ _ _ Hp) in Hbg. done. }
  destruct Hbo as [(_ & (x & p & Hp & Hbg) & _)|[-> _]].
  { rewrite (Hall _ _ _ Hp) in Hbg. done. }
  unfold height. lia.
Qed.

(** C4. The crop is [Unchanged] exactly when the scans end with
    top >= bottom or left >= right; the image it then returns is the input
    itself; and an image whose pixels are all background is returned
    [Unchanged]. *)
Theorem unchanged_iff_degenerate (img : image) (threshold : Z)
    (crop_transparent make_square : bool) (padding : Z) :
  wf_image img →
  ∃ top bottom left_ right_,
    find_boundaries img threshold crop_transparent = Ok (top, bottom, left_, right_)
    ∧ ((∃ out, crop img threshold crop_transparent make_square padding = Ok (Unchanged out))
       ↔ (top >= bottom ∨ left_ >= right_))
    ∧ (∀ out, crop img threshold crop_transparent make_square padding = Ok (Unchanged out) →
         out = img)
    ∧ (all_background img threshold crop_transparent →
         crop img threshold crop_transparent make_square padding = Ok (Unchanged img)).
Proof.
  intros Hwf.
  destruct (find_boundaries_spec img threshold crop_transparent Hwf)
    as ([[[top bottom] left_] right_] & Hb & Hlines).
  exists top, bottom, left_, right_. split; [done|].
  destruct (decide (top >= bottom ∨ left_ >= right_)) as [Hdeg|Hnon].
  - pose proof (crop_degenerate img threshold crop_transparent make_square padding
                  _ Hb Hdeg) as Hcrop.
    rewrite Hcrop. split_and!; [split; eauto| |done].
    intros out Hout. by simplify_eq.
  - assert (∀ out, crop img threshold crop_transparent make_square padding
                   ≠ Ok (Unchanged out)) as Hnot.
    { intros out. eapply crop_nondegenerate_not_Unchanged; [done|lia..]. }
    split_and!.
    + split; [|done]. intros [out Hout]. by destruct (Hnot out).
    + intros out Hout. by destruct (Hnot out).
    + intros Hall. by apply crop_all_background.
Qed.

Lemma unchanged_iff_degenerate_witness :
  wf_image scenario_image ∧
  ∃ top bottom left_ right_,
    find_boundaries scenario_image 240 true = Ok (top, bottom, left_, right_)
    ∧ ((∃ out, crop scenario_image 240 true true 2 = Ok (Unchanged out))
       ↔ (top >= bottom ∨ left_ >= right_))
    ∧ (∀ out, crop scenario_image 240 true true 2 = Ok (Unchanged out) →
         out = scenario_image)
    ∧ (all_background scenario_image 240 true →
         crop scenario_image 240 true true 2 = Ok (Unchanged scenario_image)).
Proof.
  split; [exact wf_scenario_image|].
  exact (unchanged_iff_degenerate scenario_image 240 true true 2 wf_scenario_image).
Defined.

(** ** Content confined to one pixel, one row or one column *)

Lemma bounds_of_row_content (img : image) (threshold : Z) (crop_transparent : bool)
    (top bottom left_ right_ y : Z) :
  wf_image img →
  bounding_lines img threshold crop_transparent (top, bottom, left_, right_) →
  row_has_content img threshold crop_transparent y →
  content_in_row img threshold crop_transparent y →
  top = y ∧ bottom = y.
Proof.
  intros Hwf (Ht & Hb & _) Hrow Hin.
  assert (0 ≤ y < height img) as Hy.
  { destruct Hrow as (x & p & Hp & _). by destruct (pixel_at_range img x y p). }
  split.
  - destruct Ht as [(_ & [x Hc] & _)|[_ Hno]]; [by apply (Hin x)|by destruct (Hno y)].
  - destruct Hb as [(_ & [x Hc] & _)|[_ Hno]]; [by apply (Hin x)|by destruct (Hno y)].
Qed.

Lemma bounds_of_col_content (img : image) (threshold : Z) (crop_transparent : bool)
    (top bottom left_ right_ x : Z) :
  wf_image img →
  bounding_lines img threshold crop_transparent (top, bottom, left_, right_) →
  col_has_content img threshold crop_transparent x →
  content_in_col img threshold crop_transparent x →
  left_ = x ∧ right_ = x.
Proof.
  intros Hwf (_ & _ & Hl & Hr) Hcol Hin.
  assert (0 ≤ x < width img) as Hx.
  { destruct Hcol as (y & p & Hp & _). by destruct (pixel_at_range img x y p). }
  split.
  - destruct Hl as [(_ & [y Hc] & _)|[_ Hno]]; [by apply (Hin _ y)|by destruct (Hno x)].
  - destruct Hr as [(_ & [y Hc] & _)|[_ Hno]]; [by apply (Hin _ y)|by destruct (Hno x)].
Qed.

(** C9. When the pixel at (x, y) is the only non-background pixel of the
    image, the scans give top = y, bottom = y, left = x and right = x. *)
Theorem single_pixel_boundaries (img : image) (threshold : Z) (crop_transparent : bool)
    (x y : Z) :
  wf_image img →
  content_at img threshold crop_transparent x y →
  (∀ x' y', content_at img threshold crop_transparent x' y' → x' = x ∧ y' = y) →
  find_boundaries img threshold crop_transparent = Ok (y, y, x, x).
Proof.
  intros Hwf Hc Honly.
  destruct (find_boundaries_spec img threshold crop_transparent Hwf)
    as ([[[top bottom] left_] right_] & Hb & Hlines).
  destruct (bounds_of_row_content _ _ _ _ _ _ _ y Hwf Hlines) as [-> ->].
  { by exists x. }
  { intros x' y' Hc'. by destruct (Honly x' y'). }
  destruct (bounds_of_col_content _ _ _ _ _ _ _ x Hwf Hlines) as [-> ->].
  { by exists y. }
  { intros x' y' Hc'. by destruct (Honly x' y'). }
  done.
Qed.

Lemma wf_single_pixel_image : wf_image single_pixel_image.
Proof. apply (bool_decide_unpack (wf_image single_pixel_image)). vm_compute. exact I. Defined.

Lemma wf_one_row_image : wf_image one_row_image.
Proof. apply (bool_decide_unpack (wf_image one_row_image)). vm_compute. exact I. Defined.

(** The positions of a small image, one by one. *)
Ltac each_position Hp :=
  match type of Hp with
  | pixel_at ?img ?x ?y = Some ?p =>
      let Hr := fresh "Hr" in
      assert (0 ≤ x ∧ 0 ≤ y) as Hr
        by (apply pixel_at_lookup in Hp; destruct Hp as (? & ? & _); lia);
      let n := fresh "n" in let m := fresh "m" in
      let Hn := fresh "Hn" in let Hm := fresh "Hm" in
      remember (Z.to_nat x) as n eqn:Hn; remember (Z.to_nat y) as m eqn:Hm;
      assert (x = Z.of_nat n) by lia; assert (y = Z.of_nat m) by lia;
      clear Hn Hm Hr; subst x y;
      unfold pixel_at in Hp; simpl in Hp; rewrite !Nat2Z.id in Hp;
      do 5 (try destruct m as [|m]); simpl in Hp; try discriminate Hp;
      do 5 (try destruct n as [|n]); simpl in Hp; try discriminate Hp;
      injection Hp as <-
  end.

Lemma single_pixel_image_content (x' y' : Z) :
  content_at single_pixel_image 240 true x' y' → x' = 1 ∧ y' = 2.
Proof.
  intros (p & Hp & Hbg). each_position Hp; try discriminate Hbg. done.
Defined.

Lemma single_pixel_boundaries_witness :
  wf_image single_pixel_image
  ∧ content_at single_pixel_image 240 true 1 2
  ∧ find_boundaries single_pixel_image 240 true = Ok (2, 2, 1, 1).
Proof.
  assert (content_at single_pixel_image 240 true 1 2) as Hc
    by (exists black; split; reflexivity).
  split; [exact wf_single_pixel_image|]. split; [exact Hc|].
  exact (single_pixel_boundaries single_pixel_image 240 true 1 2
           wf_single_pixel_image Hc single_pixel_image_content).
Defined.

(** C10. When the image has content and all of it lies in one row, the
    scans end with top = bottom, and when all of it lies in one column,
    with left = right; either way the crop is [Unchanged] and returns the
    input image, whatever background surrounds the content. *)
Theorem single_line_content_unchanged (img : image) (threshold : Z)
    (crop_transparent make_square : bool) (padding : Z) :
  wf_image img →
  (∃ x y, content_at img threshold crop_transparent x y) →
  (∃ y, content_in_row img threshold crop_transparent y)
  ∨ (∃ x, content_in_col img threshold crop_transparent x) →
  ∃ top bottom left_ right_,
    find_boundaries img threshold crop_transparent = Ok (top, bottom, left_, right_)
    ∧ ((∃ y, content_in_row img threshold crop_transparent y) → top = bottom)
    ∧ ((∃ x, content_in_col img threshold crop_transparent x) → left_ = right_)
    ∧ crop img threshold crop_transparent make_square padding = Ok (Unchanged img).
Proof.
  intros Hwf (x0 & y0 & Hc) Hline.
  destruct (find_boundaries_spec img threshold crop_transparent Hwf)
    as ([[[top bottom] left_] right_] & Hb & Hlines).
  assert ((∃ y, content_in_row img threshold crop_transparent y) → top = bottom) as Hrow.
  { intros [y Hy]. assert (y0 = y) as -> by (by eapply Hy).
    destruct (bounds_of_row_content _ _ _ _ _ _ _ y Hwf Hlines) as [-> ->];
      [by exists x0|done..]. }
  assert ((∃ x, content_in_col img threshold crop_transparent x) → left_ = right_) as Hcol.
  { intros [x Hx]. assert (x0 = x) as -> by (by eapply Hx).
    destruct (bounds_of_col_content _ _ _ _ _ _ _ x Hwf Hlines) as [-> ->];
      [by exists y0|done..]. }
  exists top, bottom, left_, right_. split_and!; [done..|].
  eapply crop_degenerate; [done|]. simpl.
  destruct Hline as [H|H]; [left; rewrite (Hrow H)|right; rewrite (Hcol H)]; lia.
Qed.

Lemma one_row_image_content (x' y' : Z) :
  content_at one_row_image 240 true x' y' → y' = 1.
Proof.
  intros (p & Hp & Hbg). each_position Hp; try discriminate Hbg; done.
Defined.

Lemma single_line_content_unchanged_witness :
  wf_image one_row_image
  ∧ (∃ x y, content_at one_row_image 240 true x y)
  ∧ ∃ top bottom left_ right_,
      find_boundaries one_row_image 240 true = Ok (top, bottom, left_, right_)
      ∧ ((∃ y, content_in_row one_row_image 240 true y) → top = bottom)
      ∧ ((∃ x, content_in_col one_row_image 240 true x) → left_ = right_)
      ∧ crop one_row_image 240 true true 200 = Ok (Unchanged one_row_image).
Proof.
  assert (∃ x y, content_at one_row_image 240 true x y) as Hc
    by (exists 1, 1, black; split; reflexivity).
  split; [exact wf_one_row_image|]. split; [exact Hc|].
  exact (single_line_content_unchanged one_row_image 240 true true 200
           wf_one_row_image Hc
           (or_introl (ex_intro _ 1 one_row_image_content))).
Defined.

(** ** The square canvas *)

Lemma make_square_image_spec (cropped_img : image) (padding : Z) :
  wf_image cropped_img → 0 ≤ padding →
  ∃ out,
    make_square_image cropped_img padding = Ok out
    ∧ wf_image out
    ∧ size out = (Z.max (width cropped_img) (height cropped_img) + padding * 2,
                  Z.max (width cropped_img) (height cropped_img) + padding * 2)
    ∧ ∀ x y,
        0 ≤ x < Z.max (width cropped_img) (height cropped_img) + padding * 2 →
        0 ≤ y < Z.max (width cropped_img) (height cropped_img) + padding * 2 →
        pixel_at out x y
        = Some (default transparent
                  (pixel_at cropped_img
                     (x - (paste_position (width cropped_img) (height cropped_img) padding).1)
                     (y - (paste_position (width cropped_img) (height cropped_img) padding).2))).
Proof.
  intros Hwf Hpad.
  set (n := Z.max (width cropped_img) (height cropped_img) + padding * 2).
  set (ox := (paste_position (width cropped_img) (height cropped_img) padding).1).
  set (oy := (paste_position (width cropped_img) (height cropped_img) padding).2).
  assert (0 ≤ n) as Hn by (unfold n, width, height; lia).
  destruct (Image_new_spec n n transparent Hn Hn) as (canvas & Hnew & Hwfc & Hsize & Hpix).
  destruct (img_paste_spec canvas cropped_img ox oy Hwfc) as (Hwfo & Hsizeo & Hpixo).
  exists (img_paste canvas cropped_img (ox, oy)). split_and!.
  - unfold make_square_image, size. fold n. by rewrite Hnew.
  - done.
  - by rewrite Hsizeo.
  - intros x y Hx Hy. by apply Hpixo, Hpix.
Qed.

(** The squared crop: where its pixels come from. *)
Lemma squared_crop_spec (img : image) (threshold : Z) (crop_transparent : bool)
    (padding top bottom left_ right_ : Z) :
  wf_image img →
  find_boundaries img threshold crop_transparent = Ok (top, bottom, left_, right_) →
  top < bottom → left_ < right_ → 0 ≤ padding →
  ∃ out,
    crop img threshold crop_transparent true padding = Ok (Cropped out)
    ∧ wf_image out
    ∧ size out = (Z.max (right_ + 1 - left_) (bottom + 1 - top) + padding * 2,
                  Z.max (right_ + 1 - left_) (bottom + 1 - top) + padding * 2)
    ∧ ∀ x y,
        0 ≤ x < Z.max (right_ + 1 - left_) (bottom + 1 - top) + padding * 2 →
        0 ≤ y < Z.max (right_ + 1 - left_) (bottom + 1 - top) + padding * 2 →
        pixel_at out x y
        = let '(ox, oy) := paste_position (right_ + 1 - left_) (bottom + 1 - top) padding in
          if bool_decide (ox ≤ x < ox + (right_ + 1 - left_)
                          ∧ oy ≤ y < oy + (bottom + 1 - top))
          then pixel_at img (left_ + (x - ox)) (top + (y - oy))
          else Some transparent.
Proof.
  intros Hwf Hb Ht Hl Hpad.
  pose proof (find_boundaries_inv _ _ _ Hwf _ Hb) as Hlines.
  destruct (cropped_content _ _ _ _ _ _ _ Hwf Hlines Ht Hl)
    as (cropped_img & Hcrop & Hwfc & Hsize & Hpix).
  destruct (make_square_image_spec cropped_img padding Hwfc Hpad)
    as (out & Hsq & Hwfo & Hsizeo & Hpixo).
  assert (width cropped_img = right_ + 1 - left_
          ∧ height cropped_img = bottom + 1 - top) as [Hw Hh]
    by (unfold size in Hsize; by simplify_eq).
  rewrite Hw, Hh in *.
  exists out. split_and!; [|done..|].
  - rewrite (crop_nondegenerate _ _ _ _ _ _ _ _ _ Hb Ht Hl), Hcrop. simpl.
    by rewrite Hsq.
  - intros x y Hx Hy. rewrite Hpixo by done.
    destruct (paste_position _ _ _) as [ox oy]. simpl.
    case_bool_decide as Hin.
    + rewrite Hpix by lia.
      destruct (pixel_at_is_Some img (left_ + (x - ox)) (top + (y - oy))) as [p ->];
        [done| | |done]; apply bounding_lines_range in Hlines; lia.
    + rewrite pixel_at_outside; [done..|]. rewrite Hw, Hh. lia.
Qed.

(** C5. With squaring and a non-empty crop, for every padding >= 0 the
    output is a canvas of max(croppedWidth, croppedHeight) + 2*padding
    pixels on each side, transparent (0,0,0,0) everywhere outside the place
    where the crop is pasted.  The 10x10 scenario squared with a padding of
    2 gives an 8x8 output with the 4x4 block pasted at (2, 2). *)
Theorem square_canvas_size_and_background :
  (∀ img threshold crop_transparent padding top bottom left_ right_,
     wf_image img →
     find_boundaries img threshold crop_transparent = Ok (top, bottom, left_, right_) →
     top < bottom → left_ < right_ → 0 ≤ padding →
     ∃ out,
       crop img threshold crop_transparent true padding = Ok (Cropped out)
       ∧ width out = Z.max (right_ + 1 - left_) (bottom + 1 - top) + 2 * padding
       ∧ height out = Z.max (right_ + 1 - left_) (bottom + 1 - top) + 2 * padding
       ∧ ∀ x y ox oy,
           paste_position (right_ + 1 - left_) (bottom + 1 - top) padding = (ox, oy) →
           0 ≤ x < width out → 0 ≤ y < height out →
           ¬ (ox ≤ x < ox + (right_ + 1 - left_) ∧ oy ≤ y < oy + (bottom + 1 - top)) →
           pixel_at out x y = Some transparent)
  ∧ (∀ crop_transparent,
       crop scenario_image 240 crop_transparent true 2 = Ok (Cropped scenario_squared))
  ∧ size scenario_squared = (8, 8)
  ∧ paste_position 4 4 2 = (2, 2)
  ∧ (∀ x y, 0 ≤ x < 4 → 0 ≤ y < 4 →
       pixel_at scenario_squared (2 + x) (2 + y) = pixel_at black_4x4 x y).
Proof.
  split_and!.
  - intros img threshold crop_transparent padding top bottom left_ right_
      Hwf Hb Ht Hl Hpad.
    destruct (squared_crop_spec _ _ _ _ _ _ _ _ Hwf Hb Ht Hl Hpad)
      as (out & Hcrop & _ & Hsize & Hpix).
    assert (width out = Z.max (right_ + 1 - left_) (bottom + 1 - top) + padding * 2
            ∧ height out = Z.max (right_ + 1 - left_) (bottom + 1 - top) + padding * 2)
      as [Hw Hh] by (unfold size in Hsize; by simplify_eq).
    exists out. split_and!; [done|lia|lia|].
    intros x y ox oy Hpos Hx Hy Hout. rewrite Hpix by lia. rewrite Hpos.
    by rewrite bool_decide_eq_false_2.
  - intros []; by vm_compute.
  - done.
  - done.
  - intros x y Hx Hy.
    assert (x = 0 ∨ x = 1 ∨ x = 2 ∨ x = 3) as Hxs by lia.
    assert (y = 0 ∨ y = 1 ∨ y = 2 ∨ y = 3) as Hys by lia.
    destruct_or!; subst; reflexivity.
Qed.

Lemma square_canvas_size_and_background_witness :
  wf_image scenario_image
  ∧ find_boundaries scenario_image 240 true = Ok (3, 6, 3, 6)
  ∧ 3 < 6 ∧ 0 ≤ 2
  ∧ ∃ out,
      crop scenario_image 240 true true 2 = Ok (Cropped out)
      ∧ width out = Z.max (6 + 1 - 3) (6 + 1 - 3) + 2 * 2
      ∧ height out = Z.max (6 + 1 - 3) (6 + 1 - 3) + 2 * 2
      ∧ ∀ x y ox oy,
          paste_position (6 + 1 - 3) (6 + 1 - 3) 2 = (ox, oy) →
          0 ≤ x < width out → 0 ≤ y < height out →
          ¬ (ox ≤ x < ox + (6 + 1 - 3) ∧ oy ≤ y < oy + (6 + 1 - 3)) →
          pixel_at out x y = Some transparent.
Proof.
  assert (find_boundaries scenario_image 240 true = Ok (3, 6, 3, 6)) as Hb
    by (vm_compute; reflexivity).
  assert (3 < 6) as Hlt by lia.
  assert (0 ≤ 2) as Hpad by lia.
  split; [exact wf_scenario_image|]. split; [exact Hb|].
  split; [exact Hlt|]. split; [exact Hpad|].
  exact (proj1 square_canvas_size_and_background scenario_image 240 true 2 3 6 3 6
           wf_scenario_image Hb Hlt Hlt Hpad).
Defined.

(** C6 (as amended). With squaring, a non-empty crop and a padding >= 0,
    the crop is pasted with its upper left corner at
    (padding + floor((maxDim - croppedWidth)/2),
     padding + floor((maxDim - croppedHeight)/2)), and the canvas is
    transparent around it: the crop is that far from the left and from the
    top edge of the canvas, and padding + ceil((maxDim - dim)/2) from the
    right and from the bottom edge, which is one more when maxDim - dim is
    odd. *)
Theorem content_offsets_in_square_canvas (img : image) (threshold : Z)
    (crop_transparent : bool) (padding top bottom left_ right_ : Z) :
  wf_image img →
  find_boundaries img threshold crop_transparent = Ok (top, bottom, left_, right_) →
  top < bottom → left_ < right_ → 0 ≤ padding →
  let cropped_width := right_ + 1 - left_ in
  let cropped_height := bottom + 1 - top in
  let max_dimension := Z.max cropped_width cropped_height in
  let ox := padding + (max_dimension - cropped_width) / 2 in
  let oy := padding + (max_dimension - cropped_height) / 2 in
  ∃ out,
    crop img threshold crop_transparent true padding = Ok (Cropped out)
    ∧ size out = (max_dimension + 2 * padding, max_dimension + 2 * padding)
    ∧ (∀ x y, 0 ≤ x < cropped_width → 0 ≤ y < cropped_height →
         pixel_at out (ox + x) (oy + y) = pixel_at img (left_ + x) (top + y))
    ∧ (∀ x y, 0 ≤ x < max_dimension + 2 * padding →
         0 ≤ y < max_dimension + 2 * padding →
         ¬ (ox ≤ x < ox + cropped_width ∧ oy ≤ y < oy + cropped_height) →
         pixel_at out x y = Some transparent)
    ∧ edge_offsets cropped_width cropped_height padding
      = (ox, oy,
         padding + (max_dimension - cropped_width + 1) / 2,
         padding + (max_dimension - cropped_height + 1) / 2).
Proof.
  intros Hwf Hb Ht Hl Hpad cw ch m ox oy.
  destruct (squared_crop_spec _ _ _ _ _ _ _ _ Hwf Hb Ht Hl Hpad)
    as (out & Hcrop & _ & Hsize & Hpix).
  fold cw ch m in Hsize, Hpix.
  assert (paste_position cw ch padding = (ox, oy)) as Hpos by done.
  rewrite Hpos in Hpix.
  exists out. split_and!.
  - done.
  - rewrite Hsize. f_equal; lia.
  - intros x y Hx Hy. rewrite Hpix.
    + rewrite bool_decide_eq_true_2 by lia. f_equal; lia.
    + assert (0 ≤ (m - cw) / 2) by (apply Z.div_pos; lia).
      assert ((m - cw) / 2 ≤ m - cw) by (apply Z.div_le_upper_bound; lia).
      lia.
    + assert (0 ≤ (m - ch) / 2) by (apply Z.div_pos; lia).
      assert ((m - ch) / 2 ≤ m - ch) by (apply Z.div_le_upper_bound; lia).
      lia.
  - intros x y Hx Hy Hout. rewrite Hpix by lia.
    by rewrite bool_decide_eq_false_2.
  - unfold edge_offsets. rewrite Hpos. fold m. unfold ox, oy.
    f_equal; [f_equal|].
    + pose proof (Z.div_mod (m - cw) 2) as H1. pose proof (Z.div_mod (m - cw + 1) 2) as H2.
      pose proof (Z.mod_pos_bound (m - cw) 2). pose proof (Z.mod_pos_bound (m - cw + 1) 2).
      lia.
    + pose proof (Z.div_mod (m - ch) 2) as H1. pose proof (Z.div_mod (m - ch + 1) 2) as H2.
      pose proof (Z.mod_pos_bound (m - ch) 2). pose proof (Z.mod_pos_bound (m - ch + 1) 2).
      lia.
Qed.

Lemma wf_narrow_image : wf_image narrow_image.
Proof. apply (bool_decide_unpack (wf_image narrow_image)). vm_compute. exact I. Defined.

Lemma content_offsets_in_square_canvas_witness :
  wf_image narrow_image
  ∧ find_boundaries narrow_image 240 true = Ok (1, 3, 1, 2)
  ∧ 1 < 3 ∧ 1 < 2 ∧ 0 ≤ 1
  ∧ ∃ out,
      crop narrow_image 240 true true 1 = Ok (Cropped out)
      ∧ size out = (3 + 2 * 1, 3 + 2 * 1)
      ∧ (∀ x y, 0 ≤ x < 2 → 0 ≤ y < 3 →
           pixel_at out (1 + x) (1 + y) = pixel_at narrow_image (1 + x) (1 + y))
      ∧ (∀ x y, 0 ≤ x < 3 + 2 * 1 → 0 ≤ y < 3 + 2 * 1 →
           ¬ (1 ≤ x < 1 + 2 ∧ 1 ≤ y < 1 + 3) → pixel_at out x y = Some transparent)
      ∧ edge_offsets 2 3 1 = (1, 1, 2, 1).
Proof.
  assert (find_boundaries narrow_image 240 true = Ok (1, 3, 1, 2)) as Hb
    by (vm_compute; reflexivity).
  assert (1 < 3) as H13 by lia.
  assert (1 < 2) as H12 by lia.
  assert (0 ≤ 1) as H01 by lia.
  split; [exact wf_narrow_image|]. split; [exact Hb|].
  split; [exact H13|]. split; [exact H12|]. split; [exact H01|].
  exact (content_offsets_in_square_canvas narrow_image 240 true 1 1 3 1 2
           wf_narrow_image Hb H13 H12 H01).
Defined.

(** C6 as stated fails: the 2x3 block of [narrow_image], squared with a
    padding of 1, sits in columns 1 and 2 of a canvas 5 wide, so 2 columns
    from the right edge, where padding + floor((3 - 2)/2) is 1. *)
Lemma centering_counterexample :
  find_boundaries narrow_image 240 true = Ok (1, 3, 1, 2)
  ∧ crop narrow_image 240 true true 1 = Ok (Cropped narrow_squared)
  ∧ find_boundaries narrow_squared 240 true = Ok (1, 3, 1, 2)
  ∧ width narrow_squared - 1 - 2 = 2
  ∧ edge_offsets 2 3 1 = (1, 1, 2, 1)
  ∧ edge_offsets 2 3 1
    ≠ (1 + (Z.max 2 3 - 2) / 2, 1 + (Z.max 2 3 - 3) / 2,
       1 + (Z.max 2 3 - 2) / 2, 1 + (Z.max 2 3 - 3) / 2).
Proof. split_and!; by vm_compute. Qed.

(** ** Cropping a crop *)

Section recrop.
Context (img cropped_img : image) (threshold : Z) (crop_transparent : bool).
Context (top bottom left_ right_ : Z).
Hypothesis Hwf : wf_image img.
Hypothesis Hlines :
  bounding_lines img threshold crop_transparent (top, bottom, left_, right_).
Hypothesis Htop : top < bottom.
Hypothesis Hleft : left_ < right_.
Hypothesis Hwfc : wf_image cropped_img.
Hypothesis Hsize : size cropped_img = (right_ + 1 - left_, bottom + 1 - top).
Hypothesis Hpix : ∀ x y, 0 ≤ x < right_ + 1 - left_ → 0 ≤ y < bottom + 1 - top →
  pixel_at cropped_img x y = pixel_at img (left_ + x) (top + y).

Lemma content_at_cropped (x y : Z) :
  content_at img threshold crop_transparent x y →
  content_at cropped_img threshold crop_transparent (x - left_) (y - top).
Proof.
  intros Hc.
  destruct (content_within_bounds _ _ _ _ _ _ _ _ _ Hwf Hlines Hc) as [Hy Hx].
  destruct Hc as (p & Hp & Hbg). exists p. split; [|done].
  rewrite Hpix by lia. by replace (left_ + (x - left_)) with x by lia;
    replace (top + (y - top)) with y by lia.
Qed.

(** Each side of the crop holds content: no border is left. *)
Lemma cropped_bounding_lines :
  bounding_lines cropped_img threshold crop_transparent
    (0, bottom - top, 0, right_ - left_).
Proof.
  assert (width cropped_img = right_ + 1 - left_
          ∧ height cropped_img = bottom + 1 - top) as [Hw Hh]
    by (unfold size in Hsize; by simplify_eq).
  pose proof (bounding_lines_range _ _ _ _ _ _ _ Hlines) as (? & ? & ? & ?).
  destruct Hlines as (Ht & Hb & Hl & Hr). simpl. rewrite Hw, Hh. split_and!.
  - left. split; [lia|]. split; [|intros; lia].
    destruct Ht as [(_ & [x Hc] & _)|[? _]]; [|lia].
    exists (x - left_). replace 0 with (top - top) by lia. by apply content_at_cropped.
  - left. split; [lia|]. split; [|intros; lia].
    destruct Hb as [(_ & [x Hc] & _)|[? _]]; [|lia].
    exists (x - left_). by apply content_at_cropped.
  - left. split; [lia|]. split; [|intros; lia].
    destruct Hl as [(_ & [y Hc] & _)|[? _]]; [|lia].
    exists (y - top). replace 0 with (left_ - left_) by lia. by apply content_at_cropped.
  - left. split; [lia|]. split; [|intros; lia].
    destruct Hr as [(_ & [y Hc] & _)|[? _]]; [|lia].
    exists (y - top). by apply content_at_cropped.
Qed.

End recrop.

(** C7 (as amended). When a crop without squaring is [Cropped], cropping
    its output again without squaring takes the cropping branch again, with
    a box that covers the whole image: the second outcome is [Cropped] with
    the very pixels of the first output. *)
Theorem recrop_keeps_the_crop (img out : image) (threshold : Z)
    (crop_transparent : bool) (padding padding' : Z) :
  wf_image img →
  crop img threshold crop_transparent false padding = Ok (Cropped out) →
  crop out threshold crop_transparent false padding' = Ok (Cropped out)
  ∧ find_boundaries out threshold crop_transparent
    = Ok (0, height out - 1, 0, width out - 1).
Proof.
  intros Hwf Hcrop.
  destruct (find_boundaries_spec img threshold crop_transparent Hwf)
    as ([[[top bottom] left_] right_] & Hb & Hlines).
  destruct (decide (top >= bottom ∨ left_ >= right_)) as [Hdeg|Hnon].
  { rewrite (crop_degenerate _ _ _ _ _ _ Hb Hdeg) in Hcrop. done. }
  assert (top < bottom) as Ht by lia. assert (left_ < right_) as Hl by lia.
  destruct (cropped_content _ _ _ _ _ _ _ Hwf Hlines Ht Hl)
    as (cropped_img & Himg & Hwfc & Hsize & Hpix).
  rewrite (crop_nondegenerate _ _ _ _ _ _ _ _ _ Hb Ht Hl), Himg in Hcrop.
  simpl in Hcrop. assert (cropped_img = out) as -> by congruence.
  assert (width out = right_ + 1 - left_ ∧ height out = bottom + 1 - top) as [Hw Hh]
    by (unfold size in Hsize; by simplify_eq).
  pose proof (cropped_bounding_lines _ _ _ _ _ _ _ _ Hwf Hlines Ht Hl Hsize Hpix)
    as Hlines'.
  pose proof (find_boundaries_eq _ _ _ Hwfc _ Hlines') as Hb'.
  split.
  - rewrite (crop_nondegenerate _ _ _ _ _ _ _ _ _ Hb') by lia.
    replace (right_ - left_ + 1) with (width out) by lia.
    replace (bottom - top + 1) with (height out) by lia.
    by rewrite img_crop_full.
  - rewrite Hb'. do 2 f_equal; [do 2 f_equal|]; lia.
Qed.

Lemma recrop_keeps_the_crop_witness :
  wf_image scenario_image
  ∧ crop scenario_image 240 true false 0 = Ok (Cropped black_4x4)
  ∧ crop black_4x4 240 true false 0 = Ok (Cropped black_4x4)
  ∧ find_boundaries black_4x4 240 true
    = Ok (0, height black_4x4 - 1, 0, width black_4x4 - 1).
Proof.
  assert (crop scenario_image 240 true false 0 = Ok (Cropped black_4x4)) as Hc
    by (vm_compute; reflexivity).
  split; [exact wf_scenario_image|]. split; [exact Hc|].
  exact (recrop_keeps_the_crop scenario_image black_4x4 240 true 0 0
           wf_scenario_image Hc).
Defined.

(** C7 as stated fails: the scenario crops to the 4x4 black block, and
    cropping the block again is [Cropped], not [Unchanged]. *)
Lemma recrop_counterexample :
  crop scenario_image 240 true false 0 = Ok (Cropped black_4x4)
  ∧ crop black_4x4 240 true false 0 = Ok (Cropped black_4x4)
  ∧ ¬ ∃ out, crop black_4x4 240 true false 0 = Ok (Unchanged out).
Proof.
  split_and!; [by vm_compute..|].
  intros [out Hout]. vm_compute in Hout. discriminate Hout.
Qed.

(** ** Errors *)

Lemma line_test_no_diverge (xs : list Z) (get : Z → result pixel)
    (threshold : Z) (crop_transparent : bool) :
  (∀ k, get k ≠ Diverge) →
  all_gen xs (λ k, p ← get k; Ok (is_background crop_transparent p threshold)) ≠ Diverge.
Proof.
  intros Hget. apply all_gen_no_diverge. intros k.
  specialize (Hget k). by destruct (get k).
Qed.

Lemma find_boundaries_no_diverge (img : image) (threshold : Z) (crop_transparent : bool) :
  find_boundaries img threshold crop_transparent ≠ Diverge.
Proof.
  assert (∀ row, row_all_background img threshold crop_transparent row ≠ Diverge) as Hrow.
  { intros row. apply line_test_no_diverge. intros k. apply getitem_no_diverge. }
  assert (∀ col, col_all_background img threshold crop_transparent col ≠ Diverge) as Hcol.
  { intros col. apply line_test_no_diverge. intros k. apply getitem_no_diverge. }
  assert (find_top img threshold crop_transparent ≠ Diverge) as Ht.
  { apply scan_up_no_diverge with (n := height img).
    - intros i. by destruct (i <? height img).
    - intros i Hi. by replace (i <? height img) with false by lia.
    - unfold scan_fuel. lia. }
  assert (find_bottom img threshold crop_transparent ≠ Diverge) as Hb.
  { apply scan_down_no_diverge.
    - intros i. by destruct (i >=? 0).
    - intros i Hi. by replace (i >=? 0) with false by lia.
    - unfold scan_fuel. lia. }
  assert (find_left img threshold crop_transparent ≠ Diverge) as Hl.
  { apply scan_up_no_diverge with (n := width img).
    - intros i. by destruct (i <? width img).
    - intros i Hi. by replace (i <? width img) with false by lia.
    - unfold scan_fuel. lia. }
  assert (find_right img threshold crop_transparent ≠ Diverge) as Hr.
  { apply scan_down_no_diverge.
    - intros i. by destruct (i >=? 0).
    - intros i Hi. by replace (i >=? 0) with false by lia.
    - unfold scan_fuel. lia. }
  unfold find_boundaries.
  destruct (find_top _ _ _), (find_bottom _ _ _), (find_left _ _ _), (find_right _ _ _);
    done.
Qed.

Lemma crop_no_diverge (img : image) (threshold : Z)
    (crop_transparent make_square : bool) (padding : Z) :
  crop img threshold crop_transparent make_square padding ≠ Diverge.
Proof.
  unfold crop.
  pose proof (find_boundaries_no_diverge img threshold crop_transparent) as Hb.
  destruct (find_boundaries _ _ _) as [[[[top bottom] left_] right_]| |]; simpl; [|done..].
  destruct ((top >=? bottom) || (left_ >=? right_)); [done|].
  unfold img_crop.
  destruct ((right_ + 1 <? left_) || (bottom + 1 <? top)); simpl; [done|].
  destruct make_square; [|done].
  unfold make_square_image, size, Image_new.
  by destruct (_ || _).
Qed.

(** C8 (as amended). A malformed input file, one that PIL cannot decode
    (an image of zero width or height is such a file), makes [Image.open]
    raise; [auto_crop_borders] signals no error for it: the exception is
    caught and the answer is [False].  So it is for every exception of the
    body: whatever is raised during processing is turned into the answer
    [False], a missing input file gives [False] with no exception at all,
    and [auto_crop_borders] always returns a boolean to its caller. *)
Theorem exceptions_become_false :
  (∀ w input_path output_path threshold crop_transparent make_square padding,
     ∃ b w',
       auto_crop_borders w input_path output_path threshold crop_transparent
         make_square padding = Ok (b, w'))
  ∧ (∀ w input_path output_path threshold crop_transparent make_square padding e,
       auto_crop_borders_try w input_path output_path threshold crop_transparent
         make_square padding = Raise e →
       ∃ w',
         auto_crop_borders w input_path output_path threshold crop_transparent
           make_square padding = Ok (false, w'))
  ∧ (∀ w input_path output_path threshold crop_transparent make_square padding,
       files w !! input_path = Some NotAnImage →
       auto_crop_borders_try w input_path output_path threshold crop_transparent
         make_square padding = Raise UnidentifiedImageError
       ∧ auto_crop_borders w input_path output_path threshold crop_transparent
           make_square padding = Ok (false, w))
  ∧ (∀ w input_path output_path threshold crop_transparent make_square padding,
       files w !! input_path = None →
       auto_crop_borders_try w input_path output_path threshold crop_transparent
         make_square padding = Ok (false, w)
       ∧ auto_crop_borders w input_path output_path threshold crop_transparent
           make_square padding = Ok (false, w)).
Proof.
  split_and!.
  - intros w input_path output_path threshold crop_transparent make_square padding.
    unfold auto_crop_borders, auto_crop_borders_try.
    destruct (negb _); simpl; [eauto|].
    destruct (Image_open w input_path) as [img| |] eqn:Hopen; simpl; [|eauto|].
    + pose proof (crop_no_diverge img threshold crop_transparent make_square padding).
      destruct (crop _ _ _ _ _) as [r| |]; simpl; [|eauto|done].
      unfold img_save. case_bool_decide; simpl; eauto.
    + unfold Image_open in Hopen. repeat case_match; done.
  - intros w input_path output_path threshold crop_transparent make_square padding e He.
    exists w. unfold auto_crop_borders. by rewrite He.
  - intros w input_path output_path threshold crop_transparent make_square padding Hin.
    assert (auto_crop_borders_try w input_path output_path threshold crop_transparent
              make_square padding = Raise UnidentifiedImageError) as Htry.
    { unfold auto_crop_borders_try, os_path_exists, Image_open. rewrite Hin.
      by rewrite bool_decide_eq_true_2 by eauto. }
    split; [done|]. unfold auto_crop_borders. by rewrite Htry.
  - intros w input_path output_path threshold crop_transparent make_square padding Hin.
    assert (auto_crop_borders_try w input_path output_path threshold crop_transparent
              make_square padding = Ok (false, w)) as Htry.
    { unfold auto_crop_borders_try, os_path_exists. rewrite Hin.
      by rewrite bool_decide_eq_false_2 by (by intros [? ?]). }
    split; [done|]. unfold auto_crop_borders. by rewrite Htry.
Qed.

Lemma exceptions_become_false_witness :
  files world_with_text_file !! "in.png" = Some NotAnImage
  ∧ files world_with_text_file !! "missing.png" = None
  ∧ auto_crop_borders_try world_with_text_file "in.png" "out.png" 240 true true 200
    = Raise UnidentifiedImageError
  ∧ auto_crop_borders world_with_text_file "in.png" "out.png" 240 true true 200
    = Ok (false, world_with_text_file)
  ∧ (∃ w', auto_crop_borders world_with_text_file "in.png" "out.png" 240 true true 200
           = Ok (false, w'))
  ∧ auto_crop_borders_try world_with_text_file "missing.png" "out.png" 240 true true 200
    = Ok (false, world_with_text_file)
  ∧ auto_crop_borders world_with_text_file "missing.png" "out.png" 240 true true 200
    = Ok (false, world_with_text_file).
Proof.
  assert (files world_with_text_file !! "in.png" = Some NotAnImage) as Hin
    by (vm_compute; reflexivity).
  assert (files world_with_text_file !! "missing.png" = None) as Hno
    by (vm_compute; reflexivity).
  pose proof (proj1 (proj2 (proj2 exceptions_become_false))
                world_with_text_file "in.png" "out.png" 240 true true 200 Hin)
    as [Htry Hrun].
  pose proof (proj2 (proj2 (proj2 exceptions_become_false))
                world_with_text_file "missing.png" "out.png" 240 true true 200 Hno)
    as [Htry' Hrun'].
  split; [exact Hin|]. split; [exact Hno|]. split; [exact Htry|]. split; [exact Hrun|].
  split.
  - exact (proj1 (proj2 exceptions_become_false)
             world_with_text_file "in.png" "out.png" 240 true true 200
             UnidentifiedImageError Htry).
  - split; [exact Htry'|exact Hrun'].
Defined.

(** C8 as stated fails: errors are caught, not propagated.  On a file that
    is not an image the body raises and the function answers [False]; and
    an error raised in the cropping itself, the [ValueError] of
    [Image.new] for the canvas of negative side that a padding of -3 asks
    for the 4x4 crop of the scenario, is turned into [False] in the same
    way. *)
Lemma invalid_image_counterexample :
  auto_crop_borders_try world_with_text_file "in.png" "out.png" 240 true true 200
  = Raise UnidentifiedImageError
  ∧ auto_crop_borders world_with_text_file "in.png" "out.png" 240 true true 200
    = Ok (false, world_with_text_file)
  ∧ crop scenario_image 240 true true (-3) = Raise ValueError
  ∧ auto_crop_borders_try world_with_scenario "in.png" "out.png" 240 true true (-3)
    = Raise ValueError
  ∧ auto_crop_borders world_with_scenario "in.png" "out.png" 240 true true (-3)
    = Ok (false, world_with_scenario).
Proof.
  split_and!; by vm_compute.
Qed.

(** * Further properties of the cropper *)

(** ** When the crop fails *)

Lemma make_square_image_canvas (cropped_img : image) (padding : Z) :
  wf_image cropped_img →
  0 ≤ Z.max (width cropped_img) (height cropped_img) + padding * 2 →
  ∃ out, make_square_image cropped_img padding = Ok out ∧ wf_image out.
Proof.
  intros Hwf Hn.
  set (n := Z.max (width cropped_img) (height cropped_img) + padding * 2) in *.
  destruct (Image_new_spec n n transparent Hn Hn) as (canvas & Hnew & Hwfc & _).
  set (pos := paste_position (width cropped_img) (height cropped_img) padding).
  destruct (img_paste_spec canvas cropped_img pos.1 pos.2 Hwfc) as (Hwfo & _).
  exists (img_paste canvas cropped_img (pos.1, pos.2)). split; [|done].
  unfold make_square_image, size. fold n. by rewrite Hnew.
Qed.

Lemma make_square_image_negative (cropped_img : image) (padding : Z) :
  Z.max (width cropped_img) (height cropped_img) + padding * 2 < 0 →
  make_square_image cropped_img padding = Raise ValueError.
Proof.
  intros Hn. unfold make_square_image, size, Image_new.
  by replace (_ || _) with true by lia.
Qed.

Lemma crop_returns (img : image) (threshold : Z)
    (crop_transparent make_square : bool) (padding : Z) :
  wf_image img → 0 ≤ padding →
  ∃ r, crop img threshold crop_transparent make_square padding = Ok r.
Proof.
  intros Hwf Hpad.
  destruct (find_boundaries_spec img threshold crop_transparent Hwf)
    as ([[[top bottom] left_] right_] & Hb & Hlines).
  destruct (decide (top >= bottom ∨ left_ >= right_)) as [Hdeg|Hnon].
  { exists (Unchanged img). by eapply crop_degenerate. }
  assert (top < bottom) as Ht by lia. assert (left_ < right_) as Hl by lia.
  destruct (cropped_content _ _ _ _ _ _ _ Hwf Hlines Ht Hl)
    as (cropped_img & Hcrop & Hwfc & _).
  rewrite (crop_nondegenerate _ _ _ _ _ _ _ _ _ Hb Ht Hl), Hcrop. simpl.
  destruct make_square; [|by eexists].
  destruct (make_square_image_spec cropped_img padding Hwfc Hpad) as (out & -> & _).
  by eexists.
Qed.

(** X1. On a rectangular image every array read of the scans is within
    the bounds of the array and the box given to [img.crop] is valid:
    without squaring the crop never raises, and returns a rectangular
    image.  With squaring, a non-empty crop whose canvas side
    max(croppedWidth, croppedHeight) + 2*padding is negative makes
    [Image.new] raise [ValueError]. *)
Theorem plain_crop_never_raises (img : image) (threshold : Z)
    (crop_transparent : bool) (padding : Z) :
  wf_image img →
  ∃ top bottom left_ right_,
    find_boundaries img threshold crop_transparent = Ok (top, bottom, left_, right_)
    ∧ (∃ r, crop img threshold crop_transparent false padding = Ok r
            ∧ wf_image (saved_image r))
    ∧ (top < bottom → left_ < right_ →
       Z.max (right_ + 1 - left_) (bottom + 1 - top) + padding * 2 < 0 →
       crop img threshold crop_transparent true padding = Raise ValueError).
Proof.
  intros Hwf.
  destruct (find_boundaries_spec img threshold crop_transparent Hwf)
    as ([[[top bottom] left_] right_] & Hb & Hlines).
  exists top, bottom, left_, right_. split; [done|].
  destruct (decide (top >= bottom ∨ left_ >= right_)) as [Hdeg|Hnon].
  - split; [|intros; lia]. exists (Unchanged img).
    split; [|done]. by eapply crop_degenerate.
  - assert (top < bottom) as Ht by lia. assert (left_ < right_) as Hl by lia.
    destruct (cropped_content _ _ _ _ _ _ _ Hwf Hlines Ht Hl)
      as (cropped_img & Hcrop & Hwfc & Hsize & _).
    assert (width cropped_img = right_ + 1 - left_
            ∧ height cropped_img = bottom + 1 - top) as [Hw Hh]
      by (unfold size in Hsize; by simplify_eq).
    rewrite !(crop_nondegenerate _ _ _ _ _ _ _ _ _ Hb Ht Hl), Hcrop. simpl.
    split; [by exists (Cropped cropped_img)|].
    intros _ _ Hneg. rewrite make_square_image_negative; [done|].
    by rewrite Hw, Hh.
Qed.

Lemma plain_crop_never_raises_witness :
  wf_image scenario_image ∧
  ∃ top bottom left_ right_,
    find_boundaries scenario_image 240 true = Ok (top, bottom, left_, right_)
    ∧ (∃ r, crop scenario_image 240 true false (-3) = Ok r ∧ wf_image (saved_image r))
    ∧ (top < bottom → left_ < right_ →
       Z.max (right_ + 1 - left_) (bottom + 1 - top) + (-3) * 2 < 0 →
       crop scenario_image 240 true true (-3) = Raise ValueError).
Proof.
  split; [exact wf_scenario_image|].
  exact (plain_crop_never_raises scenario_image 240 true (-3) wf_scenario_image).
Defined.

(** ** What the crop keeps *)

(** X2. The crop never loses content: every non-background pixel of the
    input is in the saved image, at its position shifted by one fixed
    offset (none when the image is returned unchanged, (-left, -top) for a
    plain crop, the paste position more when squared with a padding
    >= 0). *)
Theorem crop_keeps_every_content_pixel (img : image) (threshold : Z)
    (crop_transparent make_square : bool) (padding : Z) (r : crop_result) :
  wf_image img → 0 ≤ padding →
  crop img threshold crop_transparent make_square padding = Ok r →
  ∃ dx dy, ∀ x y p,
    pixel_at img x y = Some p →
    is_background crop_transparent p threshold = false →
    pixel_at (saved_image r) (x + dx) (y + dy) = Some p.
Proof.
  intros Hwf Hpad Hcrop.
  destruct (find_boundaries_spec img threshold crop_transparent Hwf)
    as ([[[top bottom] left_] right_] & Hb & Hlines).
  destruct (decide (top >= bottom ∨ left_ >= right_)) as [Hdeg|Hnon].
  { rewrite (crop_degenerate _ _ _ _ _ _ Hb Hdeg) in Hcrop. simplify_eq.
    exists 0, 0. intros x y p Hp _. simpl. by rewrite !Z.add_0_r. }
  assert (top < bottom) as Ht by lia. assert (left_ < right_) as Hl by lia.
  assert (∀ x y p, pixel_at img x y = Some p →
            is_background crop_transparent p threshold = false →
            top ≤ y ≤ bottom ∧ left_ ≤ x ≤ right_) as Hin.
  { intros x y p Hp Hbg. eapply content_within_bounds; [done..|]. by exists p. }
  destruct make_square.
  - destruct (squared_crop_spec _ _ _ _ _ _ _ _ Hwf Hb Ht Hl Hpad)
      as (out & Hout & _ & _ & Hpix).
    rewrite Hout in Hcrop. simplify_eq. simpl.
    destruct (paste_position _ _ _) as [ox oy] eqn:Hpos.
    assert (ox = padding + (Z.max (right_ + 1 - left_) (bottom + 1 - top)
                            - (right_ + 1 - left_)) / 2
            ∧ oy = padding + (Z.max (right_ + 1 - left_) (bottom + 1 - top)
                              - (bottom + 1 - top)) / 2) as [Hox Hoy]
      by (unfold paste_position in Hpos; by simplify_eq).
    assert (0 ≤ (Z.max (right_ + 1 - left_) (bottom + 1 - top)
                 - (right_ + 1 - left_)) / 2
            ≤ Z.max (right_ + 1 - left_) (bottom + 1 - top) - (right_ + 1 - left_)).
    { split; [apply Z.div_pos; lia|apply Z.div_le_upper_bound; lia]. }
    assert (0 ≤ (Z.max (right_ + 1 - left_) (bottom + 1 - top)
                 - (bottom + 1 - top)) / 2
            ≤ Z.max (right_ + 1 - left_) (bottom + 1 - top) - (bottom + 1 - top)).
    { split; [apply Z.div_pos; lia|apply Z.div_le_upper_bound; lia]. }
    exists (ox - left_), (oy - top). intros x y p Hp Hbg.
    destruct (Hin x y p Hp Hbg) as [Hy Hx].
    rewrite Hpix by lia. rewrite bool_decide_eq_true_2 by lia.
    rewrite <- Hp. f_equal; lia.
  - destruct (cropped_content _ _ _ _ _ _ _ Hwf Hlines Ht Hl)
      as (cropped_img & Himg & _ & _ & Hpix).
    rewrite (crop_nondegenerate _ _ _ _ _ _ _ _ _ Hb Ht Hl), Himg in Hcrop.
    simpl in Hcrop. simplify_eq. simpl.
    exists (- left_), (- top). intros x y p Hp Hbg.
    destruct (Hin x y p Hp Hbg) as [Hy Hx].
    rewrite Hpix by lia. rewrite <- Hp. f_equal; lia.
Qed.

Lemma crop_keeps_every_content_pixel_witness :
  wf_image scenario_image ∧ 0 ≤ 2
  ∧ crop scenario_image 240 true true 2 = Ok (Cropped scenario_squared)
  ∧ ∃ dx dy, ∀ x y p,
      pixel_at scenario_image x y = Some p →
      is_background true p 240 = false →
      pixel_at (saved_image (Cropped scenario_squared)) (x + dx) (y + dy) = Some p.
Proof.
  assert (0 ≤ 2) as Hpad by lia.
  assert (crop scenario_image 240 true true 2 = Ok (Cropped scenario_squared)) as Hc
    by (vm_compute; reflexivity).
  split; [exact wf_scenario_image|]. split; [exact Hpad|]. split; [exact Hc|].
  exact (crop_keeps_every_content_pixel scenario_image 240 true true 2
           (Cropped scenario_squared) wf_scenario_image Hpad Hc).
Defined.

(** X3. A plain crop (no squaring) is never smaller than 2x2 and never
    larger than the input: the test of line 78 sends every narrower box to
    the unchanged branch. *)
Theorem cropped_size_bounds (img out : image) (threshold : Z)
    (crop_transparent : bool) (padding : Z) :
  wf_image img →
  crop img threshold crop_transparent false padding = Ok (Cropped out) →
  2 ≤ width out ≤ width img ∧ 2 ≤ height out ≤ height img.
Proof.
  intros Hwf Hcrop.
  destruct (find_boundaries_spec img threshold crop_transparent Hwf)
    as ([[[top bottom] left_] right_] & Hb & Hlines).
  destruct (decide (top >= bottom ∨ left_ >= right_)) as [Hdeg|Hnon].
  { rewrite (crop_degenerate _ _ _ _ _ _ Hb Hdeg) in Hcrop. done. }
  assert (top < bottom) as Ht by lia. assert (left_ < right_) as Hl by lia.
  destruct (cropped_content _ _ _ _ _ _ _ Hwf Hlines Ht Hl)
    as (cropped_img & Himg & _ & Hsize & _).
  rewrite (crop_nondegenerate _ _ _ _ _ _ _ _ _ Hb Ht Hl), Himg in Hcrop.
  simpl in Hcrop. simplify_eq.
  apply bounding_lines_range in Hlines as (? & ? & ? & ?).
  unfold size in Hsize. simplify_eq. lia.
Qed.

Lemma cropped_size_bounds_witness :
  wf_image scenario_image
  ∧ crop scenario_image 240 true false 0 = Ok (Cropped black_4x4)
  ∧ 2 ≤ width black_4x4 ≤ width scenario_image
  ∧ 2 ≤ height black_4x4 ≤ height scenario_image.
Proof.
  assert (crop scenario_image 240 true false 0 = Ok (Cropped black_4x4)) as Hc
    by (vm_compute; reflexivity).
  split; [exact wf_scenario_image|]. split; [exact Hc|].
  exact (cropped_size_bounds scenario_image black_4x4 240 true 0 wf_scenario_image Hc).
Defined.

(** ** The parameters of the classification *)

Lemma is_background_mono (ct1 ct2 : bool) (t1 t2 : Z) (p : pixel) :
  t1 ≤ t2 → (ct2 = true → ct1 = true) →
  is_background ct2 p t2 = true → is_background ct1 p t1 = true.
Proof.
  intros Ht Hct. unfold is_background.
  destruct ct1, ct2, (alpha p =? 0); simpl; try done;
    rewrite ?andb_true_iff, ?Z.geb_le; try lia; by intuition.
Qed.

Lemma first_counting_up_mono (C1 C2 : Z → Prop) (n t1 t2 : Z) :
  (∀ i, C1 i → C2 i) →
  first_counting_up C1 n t1 → first_counting_up C2 n t2 → t2 ≤ t1.
Proof.
  intros Hsub [(Ht1 & Hc1 & _)|[-> _]] [(Ht2 & _ & Hno2)|[-> Hno2]]; try lia.
  - destruct (decide (t2 ≤ t1)); [done|]. destruct (Hno2 t1); [lia|auto].
  - destruct (Hno2 t1); auto.
Qed.

Lemma first_counting_down_mono (C1 C2 : Z → Prop) (n t1 t2 : Z) :
  (∀ i, C1 i → C2 i) →
  first_counting_down C1 n t1 → first_counting_down C2 n t2 → t1 ≤ t2.
Proof.
  intros Hsub [(Ht1 & Hc1 & _)|[-> _]] [(Ht2 & _ & Hno2)|[-> Hno2]]; try lia.
  - destruct (decide (t1 ≤ t2)); [done|]. destruct (Hno2 t1); [lia|auto].
  - destruct (Hno2 t1); auto.
Qed.

(** X4. Lowering the threshold, or counting transparent pixels as
    background, can only tighten the box the scans find: with
    threshold1 <= threshold2, and crop_transparent1 set whenever
    crop_transparent2 is, each boundary found with the first pair lies on
    or inside the boundary found with the second. *)
Theorem wider_background_tightens_the_box (img : image) (threshold1 threshold2 : Z)
    (crop_transparent1 crop_transparent2 : bool)
    (top1 bottom1 left1 right1 top2 bottom2 left2 right2 : Z) :
  wf_image img →
  threshold1 ≤ threshold2 →
  (crop_transparent2 = true → crop_transparent1 = true) →
  find_boundaries img threshold1 crop_transparent1 = Ok (top1, bottom1, left1, right1) →
  find_boundaries img threshold2 crop_transparent2 = Ok (top2, bottom2, left2, right2) →
  top2 ≤ top1 ∧ bottom1 ≤ bottom2 ∧ left2 ≤ left1 ∧ right1 ≤ right2.
Proof.
  intros Hwf Ht Hct Hb1 Hb2.
  apply find_boundaries_inv in Hb1 as (Hu1 & Hd1 & Hl1 & Hr1); [|done].
  apply find_boundaries_inv in Hb2 as (Hu2 & Hd2 & Hl2 & Hr2); [|done].
  assert (∀ x y, content_at img threshold1 crop_transparent1 x y →
                 content_at img threshold2 crop_transparent2 x y) as Hsub.
  { intros x y (p & Hp & Hbg). exists p. split; [done|].
    destruct (is_background crop_transparent2 p threshold2) eqn:Hbg2; [|done].
    by rewrite (is_background_mono _ _ _ _ _ Ht Hct Hbg2) in Hbg. }
  assert (∀ y, row_has_content img threshold1 crop_transparent1 y →
               row_has_content img threshold2 crop_transparent2 y) as Hrow.
  { intros y [x Hc]. exists x. auto. }
  assert (∀ x, col_has_content img threshold1 crop_transparent1 x →
               col_has_content img threshold2 crop_transparent2 x) as Hcol.
  { intros x [y Hc]. exists y. auto. }
  split_and!.
  - exact (first_counting_up_mono _ _ _ _ _ Hrow Hu1 Hu2).
  - exact (first_counting_down_mono _ _ _ _ _ Hrow Hd1 Hd2).
  - exact (first_counting_up_mono _ _ _ _ _ Hcol Hl1 Hl2).
  - exact (first_counting_down_mono _ _ _ _ _ Hcol Hr1 Hr2).
Qed.

Lemma wider_background_tightens_the_box_witness :
  wf_image scenario_image ∧ 0 ≤ 240
  ∧ find_boundaries scenario_image 0 true = Ok (10, -1, 10, -1)
  ∧ find_boundaries scenario_image 240 false = Ok (3, 6, 3, 6)
  ∧ 3 ≤ 10 ∧ -1 ≤ 6 ∧ 3 ≤ 10 ∧ -1 ≤ 6.
Proof.
  assert (0 ≤ 240) as Ht by lia.
  assert (find_boundaries scenario_image 0 true = Ok (10, -1, 10, -1)) as Hb1
    by (vm_compute; reflexivity).
  assert (find_boundaries scenario_image 240 false = Ok (3, 6, 3, 6)) as Hb2
    by (vm_compute; reflexivity).
  split; [exact wf_scenario_image|]. split; [exact Ht|].
  split; [exact Hb1|]. split; [exact Hb2|].
  exact (wider_background_tightens_the_box scenario_image 0 240 true false
           10 (-1) 10 (-1) 3 6 3 6 wf_scenario_image Ht (λ H, eq_refl) Hb1 Hb2).
Defined.

(** ** Images without a border *)

Lemma bounding_lines_borderless (img : image) (threshold : Z) (crop_transparent : bool) :
  0 < width img → 0 < height img →
  row_has_content img threshold crop_transparent 0 →
  row_has_content img threshold crop_transparent (height img - 1) →
  col_has_content img threshold crop_transparent 0 →
  col_has_content img threshold crop_transparent (width img - 1) →
  bounding_lines img threshold crop_transparent (0, height img - 1, 0, width img - 1).
Proof.
  intros Hw Hh Hr0 Hr1 Hc0 Hc1. simpl. split_and!; left.
  - split; [lia|]. split; [done|]. intros; lia.
  - split; [lia|]. split; [done|]. intros; lia.
  - split; [lia|]. split; [done|]. intros; lia.
  - split; [lia|]. split; [done|]. intros; lia.
Qed.

Lemma crop_of_borderless_image (img : image) (threshold : Z)
    (crop_transparent : bool) (padding : Z) :
  wf_image img →
  2 ≤ width img → 2 ≤ height img →
  row_has_content img threshold crop_transparent 0 →
  row_has_content img threshold crop_transparent (height img - 1) →
  col_has_content img threshold crop_transparent 0 →
  col_has_content img threshold crop_transparent (width img - 1) →
  crop img threshold crop_transparent false padding = Ok (Cropped img).
Proof.
  intros Hwf Hw Hh Hr0 Hr1 Hc0 Hc1.
  assert (find_boundaries img threshold crop_transparent
          = Ok (0, height img - 1, 0, width img - 1)) as Hb.
  { apply find_boundaries_eq; [done|].
    apply bounding_lines_borderless; [lia..|done|done|done|done]. }
  rewrite (crop_nondegenerate _ _ _ _ _ _ _ _ _ Hb) by lia.
  replace (width img - 1 + 1) with (width img) by lia.
  replace (height img - 1 + 1) with (height img) by lia.
  by rewrite img_crop_full.
Qed.

(** X5. An image of at least 2x2 pixels whose first and last row and first
    and last column each hold a non-background pixel has no border to
    remove: the plain crop takes the cropping branch with the box of the
    whole image and returns the very same pixels. *)
Theorem borderless_image_is_returned_whole (img : image) (threshold : Z)
    (crop_transparent : bool) (padding : Z) :
  wf_image img →
  2 ≤ width img → 2 ≤ height img →
  row_has_content img threshold crop_transparent 0 →
  row_has_content img threshold crop_transparent (height img - 1) →
  col_has_content img threshold crop_transparent 0 →
  col_has_content img threshold crop_transparent (width img - 1) →
  find_boundaries img threshold crop_transparent
  = Ok (0, height img - 1, 0, width img - 1)
  ∧ crop img threshold crop_transparent false padding = Ok (Cropped img).
Proof.
  intros Hwf Hw Hh Hr0 Hr1 Hc0 Hc1.
  assert (find_boundaries img threshold crop_transparent
          = Ok (0, height img - 1, 0, width img - 1)) as Hb.
  { apply find_boundaries_eq; [done|]. apply bounding_lines_borderless; [lia..|done|done|done|done]. }
  split; [done|].
  rewrite (crop_nondegenerate _ _ _ _ _ _ _ _ _ Hb) by lia.
  replace (width img - 1 + 1) with (width img) by lia.
  replace (height img - 1 + 1) with (height img) by lia.
  by rewrite img_crop_full.
Qed.

Lemma wf_black_4x4 : wf_image black_4x4.
Proof. apply (bool_decide_unpack (wf_image black_4x4)). vm_compute. exact I. Defined.

Lemma borderless_image_is_returned_whole_witness :
  wf_image black_4x4 ∧ 2 ≤ width black_4x4 ∧ 2 ≤ height black_4x4
  ∧ find_boundaries black_4x4 240 true
    = Ok (0, height black_4x4 - 1, 0, width black_4x4 - 1)
  ∧ crop black_4x4 240 true false 0 = Ok (Cropped black_4x4).
Proof.
  assert (2 ≤ width black_4x4) as Hw by (vm_compute; discriminate).
  assert (2 ≤ height black_4x4) as Hh by (vm_compute; discriminate).
  assert (∀ x y, pixel_at black_4x4 x y = Some black →
                 content_at black_4x4 240 true x y) as Hc
    by (intros x y Hp; exists black; split; [exact Hp|reflexivity]).
  assert (row_has_content black_4x4 240 true 0) as Hr0
    by (exists 0; apply Hc; reflexivity).
  assert (row_has_content black_4x4 240 true (height black_4x4 - 1)) as Hr1
    by (exists 0; apply Hc; reflexivity).
  assert (col_has_content black_4x4 240 true 0) as Hc0
    by (exists 0; apply Hc; reflexivity).
  assert (col_has_content black_4x4 240 true (width black_4x4 - 1)) as Hc1
    by (exists 0; apply Hc; reflexivity).
  split; [exact wf_black_4x4|]. split; [exact Hw|]. split; [exact Hh|].
  exact (borderless_image_is_returned_whole black_4x4 240 true 0 wf_black_4x4 Hw Hh
           Hr0 Hr1 Hc0 Hc1).
Defined.

(** ** Running the cropper on its own output *)

Lemma first_counting_up_content (C : Z → Prop) (n : Z) :
  0 < n → first_counting_up C n 0 → C 0.
Proof. intros Hn [(_ & Hc & _)|[? _]]; [done|lia]. Qed.

Lemma first_counting_down_content (C : Z → Prop) (n t : Z) :
  0 ≤ t → first_counting_down C n t → C t.
Proof. intros Hn [(_ & Hc & _)|[? _]]; [done|lia]. Qed.

(** X6. With transparent pixels counted as background the squared output
    is a fixed point: cropping and squaring it again, with the same
    threshold and padding, finds the pasted content inside the transparent
    margin and rebuilds the very same image.  Running the tool on its own
    outputs does not add padding a second time. *)
Theorem squared_output_is_stable (img out : image) (threshold padding : Z) :
  wf_image img → 0 ≤ padding →
  crop img threshold true true padding = Ok (Cropped out) →
  crop out threshold true true padding = Ok (Cropped out).
Proof.
  intros Hwf Hpad Hcrop.
  destruct (find_boundaries_spec img threshold true Hwf)
    as ([[[top bottom] left_] right_] & Hb & Hlines).
  destruct (decide (top >= bottom ∨ left_ >= right_)) as [Hdeg|Hnon].
  { rewrite (crop_degenerate _ _ _ _ _ _ Hb Hdeg) in Hcrop. done. }
  assert (top < bottom) as Ht by lia. assert (left_ < right_) as Hl by lia.
  destruct (cropped_content _ _ _ _ _ _ _ Hwf Hlines Ht Hl)
    as (cropped_img & Himg & Hwfc & Hsize & Hpix).
  destruct (make_square_image_spec cropped_img padding Hwfc Hpad)
    as (sq & Hsq & Hwfo & Hsizeo & Hpixo).
  rewrite (crop_nondegenerate _ _ _ _ _ _ _ _ _ Hb Ht Hl), Himg in Hcrop.
  simpl in Hcrop. rewrite Hsq in Hcrop. simpl in Hcrop.
  assert (sq = out) as -> by congruence. clear Hcrop.
  pose proof (cropped_bounding_lines _ _ _ _ _ _ _ _ Hwf Hlines Ht Hl Hsize Hpix)
    as (Hcu & Hcd & Hcl & Hcr).
  assert (width cropped_img = right_ + 1 - left_
          ∧ height cropped_img = bottom + 1 - top) as [Hw Hh]
    by (unfold size in Hsize; by simplify_eq).
  set (cw := right_ + 1 - left_) in *. set (ch := bottom + 1 - top) in *.
  rewrite Hw, Hh in *. unfold paste_position in Hpixo. simpl in Hpixo.
  set (n := Z.max cw ch + padding * 2) in *.
  set (ox := padding + (Z.max cw ch - cw) / 2) in *.
  set (oy := padding + (Z.max cw ch - ch) / 2) in *.
  assert (width out = n ∧ height out = n) as [Hwo Hho]
    by (unfold size in Hsizeo; by simplify_eq).
  assert (0 ≤ ox ∧ ox + cw ≤ n) as Hox.
  { assert (0 ≤ (Z.max cw ch - cw) / 2 ≤ Z.max cw ch - cw)
      by (split; [apply Z.div_pos; lia|apply Z.div_le_upper_bound; lia]).
    unfold ox, n. lia. }
  assert (0 ≤ oy ∧ oy + ch ≤ n) as Hoy.
  { assert (0 ≤ (Z.max cw ch - ch) / 2 ≤ Z.max cw ch - ch)
      by (split; [apply Z.div_pos; lia|apply Z.div_le_upper_bound; lia]).
    unfold oy, n. lia. }
  assert (∀ x y, content_at cropped_img threshold true x y →
                 0 ≤ x < cw ∧ 0 ≤ y < ch) as Hrange.
  { intros x y (p & Hp & _). rewrite <- Hw, <- Hh. by eapply pixel_at_range. }
  assert (∀ x y, content_at out threshold true x y →
                 content_at cropped_img threshold true (x - ox) (y - oy)) as Hfwd.
  { intros x y (p & Hp & Hbg).
    destruct (pixel_at_range out x y p Hwfo Hp) as [Hx Hy].
    rewrite Hpixo in Hp by lia.
    destruct (pixel_at cropped_img (x - ox) (y - oy)) as [q|] eqn:Hq;
      simpl in Hp; simplify_eq; by exists p. }
  assert (∀ x y, content_at cropped_img threshold true x y →
                 content_at out threshold true (x + ox) (y + oy)) as Hbwd.
  { intros x y Hc. destruct (Hrange x y Hc) as [Hx Hy].
    destruct Hc as (p & Hp & Hbg). exists p. split; [|done].
    rewrite Hpixo by lia.
    replace (x + ox - ox) with x by lia. replace (y + oy - oy) with y by lia.
    by rewrite Hp. }
  assert (bounding_lines out threshold true
            (oy, oy + (bottom - top), ox, ox + (right_ - left_))) as Hlo.
  { assert (0 < ch) as Hch by (unfold ch; lia).
    assert (0 < cw) as Hcw by (unfold cw; lia).
    assert (0 ≤ bottom - top) as Hbt by lia.
    assert (0 ≤ right_ - left_) as Hrl by lia.
    assert (bottom - top < ch ∧ right_ - left_ < cw) as [? ?] by (unfold ch, cw; lia).
    simpl. rewrite Hwo, Hho. split_and!; left.
    - split; [lia|]. split.
      + destruct (first_counting_up_content _ _ Hch Hcu) as [x Hc].
        exists (x + ox). replace oy with (0 + oy) by lia. by apply Hbwd.
      + intros i Hi [x Hc]. apply Hfwd, Hrange in Hc. lia.
    - split; [lia|]. split.
      + destruct (first_counting_down_content _ _ _ Hbt Hcd) as [x Hc].
        exists (x + ox). replace (oy + (bottom - top)) with (bottom - top + oy) by lia.
        by apply Hbwd.
      + intros i Hi [x Hc]. apply Hfwd, Hrange in Hc. lia.
    - split; [lia|]. split.
      + destruct (first_counting_up_content _ _ Hcw Hcl) as [y Hc].
        exists (y + oy). replace ox with (0 + ox) at 1 by lia. by apply Hbwd.
      + intros i Hi [y Hc]. apply Hfwd, Hrange in Hc. lia.
    - split; [lia|]. split.
      + destruct (first_counting_down_content _ _ _ Hrl Hcr) as [y Hc].
        exists (y + oy). replace (ox + (right_ - left_)) with (right_ - left_ + ox) by lia.
        by apply Hbwd.
      + intros i Hi [y Hc]. apply Hfwd, Hrange in Hc. lia. }
  pose proof (find_boundaries_eq _ _ _ Hwfo _ Hlo) as Hbo.
  rewrite (crop_nondegenerate _ _ _ _ _ _ _ _ _ Hbo) by lia.
  destruct (img_crop_spec out ox oy (ox + (right_ - left_) + 1) (oy + (bottom - top) + 1))
    as (c & -> & Hwfc' & Hsizec & Hpixc); [lia..|].
  assert (c = cropped_img) as ->.
  { apply image_eq; [done..| |].
    - rewrite Hsizec, Hsize. f_equal; lia.
    - intros x y Hx Hy. unfold size in Hsizec.
      assert (width c = ox + (right_ - left_) + 1 - ox
              ∧ height c = oy + (bottom - top) + 1 - oy) as [Hwc Hhc]
        by (by simplify_eq).
      rewrite Hpixc by lia. rewrite Hpixo by lia.
      replace (ox + x - ox) with x by lia. replace (oy + y - oy) with y by lia.
      destruct (pixel_at_is_Some cropped_img x y) as [q ->]; [done|lia..|done]. }
  simpl. by rewrite Hsq.
Qed.

Lemma squared_output_is_stable_witness :
  wf_image scenario_image ∧ 0 ≤ 2
  ∧ crop scenario_image 240 true true 2 = Ok (Cropped scenario_squared)
  ∧ crop scenario_squared 240 true true 2 = Ok (Cropped scenario_squared).
Proof.
  assert (0 ≤ 2) as Hpad by lia.
  assert (crop scenario_image 240 true true 2 = Ok (Cropped scenario_squared)) as Hc
    by (vm_compute; reflexivity).
  split; [exact wf_scenario_image|]. split; [exact Hpad|]. split; [exact Hc|].
  exact (squared_output_is_stable scenario_image scenario_squared 240 2
           wf_scenario_image Hpad Hc).
Defined.

(** ** Thresholds outside the range of a channel *)

(** X7. A threshold of 0 or less makes every pixel background, so every
    image is returned unchanged; a threshold above 255, with transparency
    not counted, makes no pixel background, so an image of at least 2x2
    pixels is cropped to itself. *)
Theorem threshold_out_of_range (img : image) (threshold : Z)
    (crop_transparent make_square : bool) (padding : Z) :
  wf_image img → uint8_image img →
  (threshold ≤ 0 →
   crop img threshold crop_transparent make_square padding = Ok (Unchanged img))
  ∧ (255 < threshold → 2 ≤ width img → 2 ≤ height img →
     crop img threshold false false padding = Ok (Cropped img)).
Proof.
  intros Hwf Hbytes. split.
  - intros Hth. apply crop_all_background; [done|].
    intros x y p Hp. destruct (Hbytes x y p Hp) as (? & ? & ? & ?).
    unfold is_background. destruct (crop_transparent && _); [done|].
    simpl. rewrite !andb_true_iff, !Z.geb_le. lia.
  - intros Hth Hw Hh.
    assert (∀ x y, 0 ≤ x < width img → 0 ≤ y < height img →
                   content_at img threshold false x y) as Hc.
    { intros x y Hx Hy. destruct (pixel_at_is_Some img x y Hwf Hx Hy) as [p Hp].
      exists p. split; [done|]. destruct (Hbytes x y p Hp) as (? & ? & ? & ?).
      unfold is_background. simpl. replace (red p >=? threshold) with false by lia.
      done. }
    apply crop_of_borderless_image; [done..| | | |].
    + exists 0. apply Hc; lia.
    + exists 0. apply Hc; lia.
    + exists 0. apply Hc; lia.
    + exists 0. apply Hc; lia.
Qed.

Lemma uint8_single_pixel_image : uint8_image single_pixel_image.
Proof.
  intros x y p Hp. each_position Hp; unfold uint8_pixel; simpl; lia.
Defined.

Lemma threshold_out_of_range_witness :
  wf_image single_pixel_image ∧ uint8_image single_pixel_image
  ∧ (0 ≤ 0 → crop single_pixel_image 0 true true 700 = Ok (Unchanged single_pixel_image))
  ∧ (255 < 256 → 2 ≤ width single_pixel_image → 2 ≤ height single_pixel_image →
     crop single_pixel_image 256 false false 700 = Ok (Cropped single_pixel_image)).
Proof.
  split; [exact wf_single_pixel_image|]. split; [exact uint8_single_pixel_image|].
  split.
  - exact (proj1 (threshold_out_of_range single_pixel_image 0 true true 700
                    wf_single_pixel_image uint8_single_pixel_image)).
  - exact (proj2 (threshold_out_of_range single_pixel_image 256 true true 700
                    wf_single_pixel_image uint8_single_pixel_image)).
Defined.

(** ** One call of [auto_crop_borders] *)

Lemma auto_crop_borders_saves (w : world) (input_path output_path : string)
    (img : image) (threshold : Z) (crop_transparent make_square : bool) (padding : Z) :
  files w !! input_path = Some (ImageFile img) →
  wf_image img → 0 ≤ padding →
  output_path ∉ read_only w →
  ∃ r w',
    crop img threshold crop_transparent make_square padding = Ok r
    ∧ auto_crop_borders w input_path output_path threshold crop_transparent
        make_square padding = Ok (true, w')
    ∧ files w' !! output_path = Some (ImageFile (saved_image r))
    ∧ (∀ path, path ≠ output_path → files w' !! path = files w !! path)
    ∧ read_only w' = read_only w.
Proof.
  intros Hin Hwf Hpad Hout.
  destruct (crop_returns img threshold crop_transparent make_square padding Hwf Hpad)
    as [r Hr].
  exists r, (World (<[output_path := ImageFile (saved_image r)]> (files w)) (read_only w)).
  split; [done|]. split_and!.
  - unfold auto_crop_borders, auto_crop_borders_try, os_path_exists, Image_open.
    rewrite Hin. rewrite bool_decide_eq_true_2 by eauto. simpl.
    rewrite Hr. simpl. unfold img_save. by rewrite bool_decide_eq_false_2.
  - simpl. by rewrite lookup_insert_eq.
  - intros path Hne. simpl. by rewrite lookup_insert_ne.
  - done.
Qed.

(** The outcome of a crop of an image with pixels, for a padding >= 0, is
    a rectangular image with pixels. *)
Lemma saved_image_has_pixels (img : image) (threshold : Z)
    (crop_transparent make_square : bool) (padding : Z) (r : crop_result) :
  wf_image img → 0 < width img → 0 < height img → 0 ≤ padding →
  crop img threshold crop_transparent make_square padding = Ok r →
  wf_image (saved_image r) ∧ 0 < width (saved_image r) ∧ 0 < height (saved_image r).
Proof.
  intros Hwf Hw Hh Hpad Hcrop.
  destruct (find_boundaries_spec img threshold crop_transparent Hwf)
    as ([[[top bottom] left_] right_] & Hb & Hlines).
  destruct (decide (top >= bottom ∨ left_ >= right_)) as [Hdeg|Hnon].
  { rewrite (crop_degenerate _ _ _ _ _ _ Hb Hdeg) in Hcrop. by simplify_eq. }
  assert (top < bottom) as Ht by lia. assert (left_ < right_) as Hl by lia.
  destruct make_square.
  - destruct (squared_crop_spec _ _ _ _ _ _ _ _ Hwf Hb Ht Hl Hpad)
      as (out & Hout & Hwfo & Hsize & _).
    rewrite Hout in Hcrop. simplify_eq. simpl. split; [done|].
    unfold size in Hsize. simplify_eq. lia.
  - destruct (cropped_content _ _ _ _ _ _ _ Hwf Hlines Ht Hl)
      as (cropped_img & Himg & Hwfc & Hsize & _).
    rewrite (crop_nondegenerate _ _ _ _ _ _ _ _ _ Hb Ht Hl), Himg in Hcrop.
    simpl in Hcrop. simplify_eq. simpl. split; [done|].
    unfold size in Hsize. simplify_eq. lia.
Qed.

(** X8. When the input path holds a rectangular image with pixels (every
    image that can be opened is one), the padding is not negative, the
    crop of the image returns, and the output path has the extension
    ".png", in any capitals, and is a path at which saving does not fail,
    [auto_crop_borders] returns [True] and the output path then holds the
    outcome of the crop, which is again a rectangular image with pixels:
    the image itself when it is returned unchanged, the cropped, or cropped
    and squared, image otherwise. *)
Theorem auto_crop_borders_writes_the_crop (w : world) (input_path output_path : string)
    (img : image) (threshold : Z) (crop_transparent make_square : bool) (padding : Z)
    (r : crop_result) :
  files w !! input_path = Some (ImageFile img) →
  wf_image img → 0 < width img → 0 < height img →
  0 ≤ padding →
  crop img threshold crop_transparent make_square padding = Ok r →
  lower (os_path_splitext output_path).2 = ".png" →
  output_path ∉ read_only w →
  ∃ w',
    auto_crop_borders w input_path output_path threshold crop_transparent
      make_square padding = Ok (true, w')
    ∧ files w' !! output_path = Some (ImageFile (saved_image r))
    ∧ wf_image (saved_image r)
    ∧ 0 < width (saved_image r) ∧ 0 < height (saved_image r).
Proof.
  intros Hin Hwf Hw Hh Hpad Hr _ Hout.
  exists (World (<[output_path := ImageFile (saved_image r)]> (files w)) (read_only w)).
  split; [|split].
  - unfold auto_crop_borders, auto_crop_borders_try, os_path_exists, Image_open.
    rewrite Hin. rewrite bool_decide_eq_true_2 by eauto. simpl.
    rewrite Hr. simpl. unfold img_save. by rewrite bool_decide_eq_false_2.
  - simpl. by rewrite lookup_insert_eq.
  - by eapply saved_image_has_pixels.
Qed.

Lemma auto_crop_borders_writes_the_crop_witness :
  files world_with_scenario !! "in.png" = Some (ImageFile scenario_image)
  ∧ wf_image scenario_image
  ∧ 0 < width scenario_image ∧ 0 < height scenario_image
  ∧ 0 ≤ 2
  ∧ crop scenario_image 240 true true 2 = Ok (Cropped scenario_squared)
  ∧ lower (os_path_splitext "out.PNG").2 = ".png"
  ∧ ("out.PNG" ∉ read_only world_with_scenario)
  ∧ ∃ w',
      auto_crop_borders world_with_scenario "in.png" "out.PNG" 240 true true 2
      = Ok (true, w')
      ∧ files w' !! "out.PNG" = Some (ImageFile (saved_image (Cropped scenario_squared)))
      ∧ wf_image (saved_image (Cropped scenario_squared))
      ∧ 0 < width (saved_image (Cropped scenario_squared))
      ∧ 0 < height (saved_image (Cropped scenario_squared)).
Proof.
  assert (files world_with_scenario !! "in.png" = Some (ImageFile scenario_image)) as Hin
    by (vm_compute; reflexivity).
  assert (0 < width scenario_image) as Hw by (vm_compute; reflexivity).
  assert (0 < height scenario_image) as Hh by (vm_compute; reflexivity).
  assert (0 ≤ 2) as Hpad by lia.
  assert (crop scenario_image 240 true true 2 = Ok (Cropped scenario_squared)) as Hr
    by (vm_compute; reflexivity).
  assert (lower (os_path_splitext "out.PNG").2 = ".png") as Hext
    by (vm_compute; reflexivity).
  assert ("out.PNG" ∉ read_only world_with_scenario) as Hout
    by (apply (bool_decide_unpack ("out.PNG" ∉ read_only world_with_scenario));
        vm_compute; exact I).
  split; [exact Hin|]. split; [exact wf_scenario_image|].
  split; [exact Hw|]. split; [exact Hh|]. split; [exact Hpad|]. split; [exact Hr|].
  split; [exact Hext|]. split; [exact Hout|].
  exact (auto_crop_borders_writes_the_crop world_with_scenario "in.png" "out.PNG"
           scenario_image 240 true true 2 (Cropped scenario_squared)
           Hin wf_scenario_image Hw Hh Hpad Hr Hext Hout).
Defined.

(** What one call can do to the files: nothing, or write the output
    path. *)
Lemma auto_crop_borders_effect (w : world) (input_path output_path : string)
    (threshold : Z) (crop_transparent make_square : bool) (padding : Z) :
  ∃ b w',
    auto_crop_borders w input_path output_path threshold crop_transparent
      make_square padding = Ok (b, w')
    ∧ read_only w' = read_only w
    ∧ (b = false → w' = w)
    ∧ ∀ path, path ≠ output_path → files w' !! path = files w !! path.
Proof.
  unfold auto_crop_borders, auto_crop_borders_try.
  destruct (negb _); simpl; [by exists false, w|].
  destruct (Image_open w input_path) as [img| |] eqn:Hopen; simpl.
  - pose proof (crop_no_diverge img threshold crop_transparent make_square padding).
    destruct (crop _ _ _ _ _) as [r| |]; simpl; [|by exists false, w|done].
    unfold img_save. case_bool_decide; simpl; [by exists false, w|].
    eexists true, _. split; [done|]. split_and!; [done|done|].
    intros path Hne. simpl. by rewrite lookup_insert_ne.
  - by exists false, w.
  - unfold Image_open in Hopen. repeat case_match; done.
Qed.



(** * Properties of the batch *)

(** ** Strings *)

Lemma app_nil_l_s (t : string) : "" +:+ t = t.
Proof. reflexivity. Qed.

Lemma app_cons_s (a : ascii) (s t : string) : String a s +:+ t = String a (s +:+ t).
Proof. reflexivity. Qed.

Lemma app_nil_r_s (s : string) : s +:+ "" = s.
Proof. induction s as [|a s IH]; [done|]. by rewrite app_cons_s, IH. Qed.

Lemma app_assoc_s (s t u : string) : (s +:+ t) +:+ u = s +:+ t +:+ u.
Proof. induction s as [|a s IH]; [done|]. by rewrite !app_cons_s, IH. Qed.

Lemma app_eq_nil_s (s t : string) : s +:+ t = "" → s = "" ∧ t = "".
Proof. destruct s; [done|]. by rewrite app_cons_s. Qed.

Lemma ascii_eqb_true (a b : ascii) : Ascii.eqb a b = true ↔ a = b.
Proof. apply Ascii.eqb_eq. Qed.

Lemma ascii_eqb_false (a b : ascii) : Ascii.eqb a b = false ↔ a ≠ b.
Proof. apply Ascii.eqb_neq. Qed.

Lemma contains_app (c : ascii) (s t : string) :
  contains c (s +:+ t) = contains c s || contains c t.
Proof.
  induction s as [|a s IH]; [done|].
  rewrite app_cons_s. simpl. rewrite IH. by rewrite orb_assoc.
Qed.

Lemma startswith_slash (s : string) :
  startswith s "/" = true ↔ ∃ s', s = String "/" s'.
Proof.
  unfold startswith. destruct s as [|a s]; cbn [String.prefix].
  - split; [done|]. by intros [? ?].
  - destruct (ascii_dec "/" a) as [<-|Hne].
    + split; [eauto|]. by destruct s.
    + split; [done|]. intros [s' ?]. by simplify_eq.
Qed.

Lemma startswith_slash_false (s : string) :
  startswith s "/" = false ↔ ∀ s', s ≠ String "/" s'.
Proof.
  destruct (startswith s "/") eqn:H.
  - apply startswith_slash in H as [s' ->]. split; [done|]. intros Hs. by destruct (Hs s').
  - split; [|done]. intros _ s' ->.
    assert (startswith (String "/" s') "/" = true) as Ht by (apply startswith_slash; eauto).
    by rewrite Ht in H.
Qed.

Lemma valid_name_inv (name : string) :
  valid_name name = true →
  name ≠ "" ∧ contains "/" name = false ∧ startswith name "/" = false.
Proof.
  unfold valid_name. rewrite andb_true_iff, !negb_true_iff.
  intros [Hne Hc]. apply String.eqb_neq in Hne. split_and!; [done..|].
  apply startswith_slash_false. intros s' ->. simpl in Hc. done.
Qed.

Lemma endswith_slash_app (s t : string) :
  t ≠ "" → endswith (s +:+ t) "/" = endswith t "/".
Proof.
  intros Ht. induction s as [|a s IH]; [done|].
  rewrite app_cons_s. simpl. rewrite IH.
  destruct (s +:+ t) as [|b u] eqn:Hst.
  - by apply app_eq_nil_s in Hst as [_ ->].
  - simpl. by destruct (Ascii.eqb a "/").
Qed.

Lemma endswith_slash_contains (s : string) :
  endswith s "/" = true → contains "/" s = true.
Proof.
  induction s as [|a s IH]; [done|]. simpl.
  destruct (Ascii.eqb a "/"); [done|]. exact IH.
Qed.

Lemma endswith_slash_valid (s name : string) :
  valid_name name = true → endswith (s +:+ name) "/" = false.
Proof.
  intros (Hne & Hc & _)%valid_name_inv.
  rewrite endswith_slash_app by done.
  destruct (endswith name "/") eqn:He; [|done].
  apply endswith_slash_contains in He. congruence.
Qed.

(** Two strings that agree up to their first separator. *)
Lemma split_at_first_slash (a b x y : string) :
  contains "/" a = false → contains "/" b = false →
  a +:+ String "/" x = b +:+ String "/" y → a = b ∧ x = y.
Proof.
  revert b. induction a as [|c a IH]; intros [|d b] Ha Hb Heq.
  - rewrite !app_nil_l_s in Heq. by simplify_eq.
  - rewrite app_nil_l_s, app_cons_s in Heq. by simplify_eq/=.
  - rewrite app_nil_l_s, app_cons_s in Heq. by simplify_eq/=.
  - rewrite !app_cons_s in Heq. simplify_eq/=.
    apply orb_false_iff in Ha as [_ Ha]. apply orb_false_iff in Hb as [_ Hb].
    destruct (IH b Ha Hb) as [-> ->]; done.
Qed.

Lemma rsplit_app (c : ascii) (s head tail : string) :
  rsplit c s = Some (head, tail) → s = head +:+ tail.
Proof.
  revert head tail. induction s as [|a s IH]; intros head tail; simpl; [done|].
  destruct (rsplit c s) as [[h t]|].
  - intros ?. simplify_eq. by rewrite app_cons_s, <- (IH h tail).
  - destruct (Ascii.eqb a c); [|done]. intros ?. by simplify_eq.
Qed.

Lemma rsplit_None (c : ascii) (s : string) :
  contains c s = false → rsplit c s = None.
Proof.
  induction s as [|a s IH]; [done|]. simpl.
  intros [Ha Hs]%orb_false_iff. by rewrite IH, Ha.
Qed.

Lemma rsplit_last (c : ascii) (s t : string) :
  contains c t = false → rsplit c (s +:+ String c t) = Some (s, String c t).
Proof.
  intros Ht. induction s as [|a s IH].
  - rewrite app_nil_l_s. simpl. rewrite (rsplit_None c t Ht).
    by rewrite (proj2 (ascii_eqb_true c c)).
  - rewrite app_cons_s. simpl. by rewrite IH.
Qed.

(** ** Paths *)

(** What [os.path.join] puts before a relative name. *)
Lemma os_path_join_relative (a b : string) :
  startswith b "/" = false →
  os_path_join a b
  = (if String.eqb a "" || endswith a "/" then a else a +:+ "/") +:+ b.
Proof.
  intros Hb. unfold os_path_join. rewrite Hb.
  destruct (_ || _); [done|]. by rewrite app_assoc_s.
Qed.

Lemma os_path_join_after_name (a name b : string) :
  valid_name name = true → startswith b "/" = false →
  os_path_join (a +:+ name) b = a +:+ name +:+ String "/" b.
Proof.
  intros Hname Hb. rewrite os_path_join_relative by done.
  rewrite (endswith_slash_valid a name Hname).
  replace (a +:+ name =? "")%string with false.
  - simpl. by rewrite !app_assoc_s.
  - symmetry. apply String.eqb_neq. intros [_ ->]%app_eq_nil_s. done.
Qed.

(** The shape of the paths of [process_folder]. *)
Lemma path_in_shape (target_dir folder sub file : string) :
  valid_name folder = true → valid_name sub = true → startswith file "/" = false →
  path_in target_dir folder sub file
  = (if String.eqb target_dir "" || endswith target_dir "/"
     then target_dir else target_dir +:+ "/")
    +:+ folder +:+ String "/" (sub +:+ String "/" file).
Proof.
  intros Hfolder Hsub Hfile. unfold path_in.
  apply valid_name_inv in Hfolder as Hf. destruct Hf as (_ & _ & Hfs).
  apply valid_name_inv in Hsub as Hs. destruct Hs as (_ & _ & Hss).
  rewrite (os_path_join_relative target_dir folder Hfs).
  set (T := if String.eqb target_dir "" || endswith target_dir "/"
            then target_dir else target_dir +:+ "/").
  rewrite (os_path_join_after_name T folder sub Hfolder Hss).
  replace (T +:+ folder +:+ String "/" sub)
    with ((T +:+ folder +:+ "/") +:+ sub)
    by (by rewrite !app_assoc_s).
  rewrite (os_path_join_after_name _ sub file Hsub Hfile).
  by rewrite !app_assoc_s.
Qed.

Lemma os_path_splitext_root (p : string) :
  ∃ ext, p = (os_path_splitext p).1 +:+ ext.
Proof.
  unfold os_path_splitext.
  destruct (rsplit "." p) as [[root ext]|] eqn:Hsplit.
  - apply rsplit_app in Hsplit.
    destruct (contains "/" ext); [exists ""; by rewrite app_nil_r_s|].
    destruct (all_chars "." _); [exists ""; by rewrite app_nil_r_s|].
    by exists ext.
  - exists "". by rewrite app_nil_r_s.
Qed.

Lemma output_filename_relative (file : string) :
  valid_name file = true → startswith (output_filename file) "/" = false.
Proof.
  intros (_ & Hc & _)%valid_name_inv. unfold output_filename.
  destruct (os_path_splitext_root file) as [ext Hext].
  destruct ((os_path_splitext file).1) as [|a base]; [done|].
  apply startswith_slash_false. intros s'. rewrite app_cons_s. intros Heq.
  rewrite Hext, app_cons_s in Hc. simpl in Hc. by simplify_eq.
Qed.

Lemma output_path_shape (target_dir folder file : string) :
  valid_name folder = true → valid_name file = true →
  output_path target_dir folder file
  = (if String.eqb target_dir "" || endswith target_dir "/"
     then target_dir else target_dir +:+ "/")
    +:+ folder +:+ String "/" ("Resized" +:+ String "/" (output_filename file)).
Proof.
  intros Hfolder Hfile. unfold output_path.
  apply path_in_shape; [done|done|]. by apply output_filename_relative.
Qed.

(** An output path is no path of another folder of the product folder. *)
Lemma output_path_not_in_sibling (target_dir folder file folder' sub file' : string) :
  valid_name folder = true → valid_name file = true →
  valid_name folder' = true → valid_name sub = true → valid_name file' = true →
  sub ≠ "Resized" →
  output_path target_dir folder file ≠ path_in target_dir folder' sub file'.
Proof.
  intros Hfolder Hfile Hfolder' Hsub Hfile' Hne Heq.
  rewrite output_path_shape in Heq by done.
  apply valid_name_inv in Hfile' as Hf'. destruct Hf' as (_ & _ & Hrel).
  rewrite (path_in_shape target_dir folder' sub file') in Heq by done.
  apply (inj (String.app _)) in Heq.
  apply valid_name_inv in Hfolder as (_ & Hc & _).
  apply valid_name_inv in Hfolder' as (_ & Hc' & _).
  apply split_at_first_slash in Heq as [_ Heq]; [|done..].
  apply valid_name_inv in Hsub as (_ & Hcs & _).
  apply split_at_first_slash in Heq as [Heq _]; [|done..].
  by destruct Hne.
Qed.

(** ** The loops of [process_folder] *)

Lemma call_auto_crop_borders_spec (source_path output : string) (fs : filesystem) :
  ∃ fs', call_auto_crop_borders source_path output fs = Returns tt fs'
    ∧ fs_dirs fs' = fs_dirs fs
    ∧ read_only (fs_world fs') = read_only (fs_world fs)
    ∧ ∀ path, path ≠ output →
        files (fs_world fs') !! path = files (fs_world fs) !! path.
Proof.
  unfold call_auto_crop_borders.
  destruct (auto_crop_borders_effect (fs_world fs) source_path output 240 true true 700)
    as (b & w' & -> & Hro & _ & Hfiles).
  by eexists.
Qed.

Lemma process_images_frame (resized_folder : string)
    (source_images : list (string * string)) (fs : filesystem) :
  ∃ fs', process_images resized_folder source_images fs = Returns tt fs'
    ∧ fs_dirs fs' = fs_dirs fs
    ∧ read_only (fs_world fs') = read_only (fs_world fs)
    ∧ ∀ path,
        (∀ job, job ∈ source_images →
           os_path_join resized_folder (output_filename job.2) ≠ path) →
        files (fs_world fs') !! path = files (fs_world fs) !! path.
Proof.
  revert fs. induction source_images as [|[source_path filename] rest IH]; intros fs.
  - by exists fs.
  - unfold process_images. simpl. unfold io_bind.
    destruct (call_auto_crop_borders_spec source_path
                (os_path_join resized_folder (output_filename filename)) fs)
      as (fs1 & -> & Hd1 & Hro1 & Hf1).
    destruct (IH fs1) as (fs' & Hrun & Hd & Hro & Hf).
    exists fs'. split; [exact Hrun|]. split_and!; [congruence..|].
    intros path Hpath. rewrite Hf, Hf1; [done| |].
    + intros Heq. by apply (Hpath (source_path, filename)); [left|].
    + intros job Hjob. apply Hpath. by right.
Qed.

Lemma collect_images_spec (fs : filesystem) (folder : string)
    (source_images : list (string * string)) :
  ∃ source_images',
    collect_images fs folder source_images = Ok source_images'
    ∧ ∀ job, job ∈ source_images' →
        job ∈ source_images
        ∨ ∃ names, fs_dirs fs !! folder = Some names ∧ job.2 ∈ names
                   ∧ has_image_extension job.2 = true
                   ∧ job.1 = os_path_join folder job.2.
Proof.
  unfold collect_images, path_exists, os_path_isdir, os_listdir.
  destruct (fs_dirs fs !! folder) as [names|] eqn:Hdir.
  - rewrite bool_decide_eq_true_2 by eauto. rewrite orb_true_r. simpl.
    eexists. split; [done|].
    assert (∀ acc job,
      job ∈ foldl (λ source_images file,
                     if has_image_extension file
                     then source_images ++ [(os_path_join folder file, file)]
                     else source_images) acc names →
      job ∈ acc ∨ (job.2 ∈ names ∧ has_image_extension job.2 = true
                   ∧ job.1 = os_path_join folder job.2)) as Hfold.
    { clear Hdir. induction names as [|file names IH]; intros acc job; simpl; [auto|].
      intros Hjob. apply IH in Hjob as [Hjob|(? & ? & ?)].
      - destruct (has_image_extension file) eqn:Hext; [|by left].
        apply elem_of_app in Hjob as [Hjob|Hjob]; [by left|].
        apply list_elem_of_singleton in Hjob as ->. right. simpl.
        split_and!; [left|done|done].
      - right. split_and!; [by right|done|done]. }
    intros job Hjob. apply Hfold in Hjob as [?|(? & ? & ?)]; [by left|].
    right. by exists names.
  - rewrite bool_decide_eq_false_2 by (by intros [? ?]). rewrite andb_false_r.
    exists source_images. split; [done|]. by left.
Qed.

Lemma unchanged_outside_refl (P : string → Prop) (fs : filesystem) :
  unchanged_outside P fs fs.
Proof. by split. Qed.

Lemma unchanged_outside_trans (P : string → Prop) (fs1 fs2 fs3 : filesystem) :
  unchanged_outside P fs1 fs2 → unchanged_outside P fs2 fs3 →
  unchanged_outside P fs1 fs3.
Proof.
  intros [Hro1 Hf1] [Hro2 Hf2]. split; [congruence|].
  intros path Hpath. by rewrite Hf2, Hf1.
Qed.

Lemma valid_listings_same_dirs (fs fs' : filesystem) :
  fs_dirs fs' = fs_dirs fs → valid_listings fs → valid_listings fs'.
Proof. unfold valid_listings. intros ->. done. Qed.

Lemma valid_listings_mkdir (fs : filesystem) (path : string) :
  valid_listings fs →
  valid_listings (FileSystem (fs_world fs) (<[path := []]> (fs_dirs fs))).
Proof.
  intros Hv dir names name. simpl.
  destruct (decide (path = dir)) as [->|Hne].
  - rewrite lookup_insert_eq. intros ? Hin. simplify_eq. by apply elem_of_nil in Hin.
  - rewrite lookup_insert_ne by done. apply Hv.
Qed.

(** One folder: the function returns or raises, and whatever file it
    changed is an output path. *)
Lemma process_one_folder_frame (target_dir folder : string) (fs : filesystem) :
  match process_one_folder target_dir folder fs with
  | Returns _ fs' | Raises _ fs' =>
      valid_listings fs → valid_name folder = true →
      valid_listings fs' ∧ unchanged_outside (is_output_path target_dir) fs fs'
  | Hangs => False
  end.
Proof.
  unfold process_one_folder, io_bind.
  set (folder_path := os_path_join target_dir folder).
  set (resized_folder := os_path_join folder_path "Resized").
  assert ((∃ fs1, (if negb (path_exists fs resized_folder)
                   then io_write (λ fs, os_makedirs fs resized_folder) fs
                   else Returns tt fs) = Returns tt fs1
                  ∧ fs_world fs1 = fs_world fs
                  ∧ (valid_listings fs → valid_listings fs1))
          ∨ (∃ e, (if negb (path_exists fs resized_folder)
                   then io_write (λ fs, os_makedirs fs resized_folder) fs
                   else Returns tt fs) = Raises e fs))
    as [(fs1 & -> & Hw1 & Hv1)|[e ->]].
  { destruct (negb _); [|left; by exists fs].
    unfold io_write, os_makedirs. destruct (_ || _); [right; by eexists|].
    left. eexists. split; [done|]. split; [done|]. apply valid_listings_mkdir. }
  2: { intros Hv _. split; [done|apply unchanged_outside_refl]. }
  unfold io_read.
  destruct (collect_images_spec fs1 (os_path_join folder_path "PNG") [])
    as (acc1 & -> & Hacc1).
  destruct (collect_images_spec fs1 (os_path_join folder_path "Transparent_ Background")
              acc1) as (acc2 & -> & Hacc2).
  destruct (process_images_frame resized_folder acc2 fs1) as (fs' & -> & Hd & Hro & Hf).
  intros Hv Hfolder. specialize (Hv1 Hv). split.
  - by apply (valid_listings_same_dirs fs1).
  - split; [by rewrite Hro, Hw1|].
    intros path Hpath. rewrite Hf, Hw1; [done|].
    intros [source_path filename] Hjob Heq. simpl in Heq. apply Hpath.
    assert (valid_name filename = true ∧ has_image_extension filename = true)
      as [Hname Hext].
    { apply Hacc2 in Hjob as [Hjob|(names & Hdir & Hin & Hext & _)].
      - apply Hacc1 in Hjob as [Hjob|(names & Hdir & Hin & Hext & _)].
        + by apply elem_of_nil in Hjob.
        + split; [|done]. by eapply Hv1.
      - split; [|done]. by eapply Hv1. }
    exists folder, filename. split_and!; [done..|]. by rewrite <- Heq.
Qed.

Lemma for_each_folder_frame (target_dir : string) (folders : list string)
    (fs : filesystem) :
  match for_each folders (process_one_folder target_dir) fs with
  | Returns _ fs' | Raises _ fs' =>
      valid_listings fs → Forall (λ folder, valid_name folder = true) folders →
      valid_listings fs' ∧ unchanged_outside (is_output_path target_dir) fs fs'
  | Hangs => False
  end.
Proof.
  revert fs. induction folders as [|folder folders IH]; intros fs; simpl.
  - intros Hv _. split; [done|apply unchanged_outside_refl].
  - unfold io_bind.
    pose proof (process_one_folder_frame target_dir folder fs) as Hone.
    destruct (process_one_folder target_dir folder fs) as [[] fs1|e fs1|]; [| |done].
    + specialize (IH fs1).
      destruct (for_each folders (process_one_folder target_dir) fs1)
        as [[] fs2|e fs2|]; [| |done].
      * intros Hv [Hfolder Hrest]%Forall_cons.
        destruct (Hone Hv Hfolder) as [Hv1 H1]. destruct (IH Hv1 Hrest) as [Hv2 H2].
        split; [done|]. by eapply unchanged_outside_trans.
      * intros Hv [Hfolder Hrest]%Forall_cons.
        destruct (Hone Hv Hfolder) as [Hv1 H1]. destruct (IH Hv1 Hrest) as [Hv2 H2].
        split; [done|]. by eapply unchanged_outside_trans.
    + intros Hv [Hfolder Hrest]%Forall_cons. by apply Hone.
Qed.

Lemma process_folder_frame (target_dir : string) (fs : filesystem) :
  ∃ fs', process_folder target_dir fs = Returns tt fs'
    ∧ (valid_listings fs →
       valid_listings fs' ∧ unchanged_outside (is_output_path target_dir) fs fs').
Proof.
  unfold process_folder, process_folder_try, io_bind, io_read, os_listdir.
  destruct (fs_dirs fs !! target_dir) as [names|] eqn:Hdir.
  - set (folders := filter _ names).
    pose proof (for_each_folder_frame target_dir folders fs) as Hloop.
    assert (valid_listings fs → Forall (λ folder, valid_name folder = true) folders)
      as Hvalid.
    { intros Hv. apply Forall_forall. intros folder [_ Hin]%list_elem_of_filter.
      by eapply Hv. }
    destruct (for_each folders (process_one_folder target_dir) fs)
      as [[] fs'|e fs'|]; [| |done]; exists fs'; (split; [done|]); auto.
  - exists fs. split; [done|]. intros Hv. split; [done|apply unchanged_outside_refl].
Qed.

Lemma auto_crop_borders_answers_false (w : world) (input_path output_path : string)
    (threshold : Z) (crop_transparent make_square : bool) (padding : Z) :
  files w !! input_path = None
  ∨ files w !! input_path = Some NotAnImage
  ∨ output_path ∈ read_only w →
  auto_crop_borders w input_path output_path threshold crop_transparent
    make_square padding = Ok (false, w).
Proof.
  intros Hcase.
  destruct (auto_crop_borders_effect w input_path output_path threshold
              crop_transparent make_square padding) as (b & w' & Hrun & _ & Hfalse & _).
  rewrite Hrun. destruct b; [|by rewrite Hfalse].
  exfalso. revert Hrun.
  unfold auto_crop_borders, auto_crop_borders_try, os_path_exists, Image_open.
  destruct (files w !! input_path) as [[img|]|] eqn:Hin.
  - destruct Hcase as [?|[?|Hro]]; [done..|].
    rewrite bool_decide_eq_true_2 by eauto. simpl.
    destruct (crop _ _ _ _ _) as [r| |]; simpl; [|done..].
    unfold img_save. by rewrite bool_decide_eq_true_2.
  - rewrite bool_decide_eq_true_2 by eauto. done.
  - rewrite bool_decide_eq_false_2 by (by intros [? ?]). done.
Qed.

(** X10. [process_folder] always returns: no exception leaves it and no
    image makes it run for ever.  And an image that fails does not stop
    the loop over the images of a folder: when the source of an image is
    missing or is not an image, or its output cannot be saved, the loop
    goes on with the images that follow exactly as if that image were not
    in the list. *)
Theorem failed_image_does_not_stop_the_batch :
  (∀ target_dir fs, ∃ fs', process_folder target_dir fs = Returns tt fs')
  ∧ (∀ resized_folder source_path filename rest fs,
       files (fs_world fs) !! source_path = None
       ∨ files (fs_world fs) !! source_path = Some NotAnImage
       ∨ os_path_join resized_folder (output_filename filename)
         ∈ read_only (fs_world fs) →
       process_images resized_folder ((source_path, filename) :: rest) fs
       = process_images resized_folder rest fs).
Proof.
  split.
  - intros target_dir fs.
    destruct (process_folder_frame target_dir fs) as (fs' & Hrun & _). by exists fs'.
  - intros resized_folder source_path filename rest fs Hcase.
    unfold process_images. simpl. unfold io_bind, call_auto_crop_borders.
    rewrite (auto_crop_borders_answers_false _ _ _ 240 true true 700 Hcase).
    by destruct fs.
Qed.

Lemma failed_image_does_not_stop_the_batch_witness :
  (files (fs_world batch_fs) !! "target/w1/PNG/notes.txt" = None
   ∨ files (fs_world batch_fs) !! "target/w1/PNG/notes.txt" = Some NotAnImage
   ∨ os_path_join "target/w1/Resized" (output_filename "notes.txt")
     ∈ read_only (fs_world batch_fs))
  ∧ process_images "target/w1/Resized"
      (("target/w1/PNG/notes.txt", "notes.txt") :: [("target/w1/PNG/a.png", "a.png")])
      batch_fs
    = process_images "target/w1/Resized" [("target/w1/PNG/a.png", "a.png")] batch_fs.
Proof.
  assert (files (fs_world batch_fs) !! "target/w1/PNG/notes.txt" = None
          ∨ files (fs_world batch_fs) !! "target/w1/PNG/notes.txt" = Some NotAnImage
          ∨ os_path_join "target/w1/Resized" (output_filename "notes.txt")
            ∈ read_only (fs_world batch_fs)) as Hcase
    by (right; left; vm_compute; reflexivity).
  split; [exact Hcase|].
  exact (proj2 failed_image_does_not_stop_the_batch "target/w1/Resized"
           "target/w1/PNG/notes.txt" "notes.txt" [("target/w1/PNG/a.png", "a.png")]
           batch_fs Hcase).
Defined.

(** X11. The only files [process_folder] creates or changes are output
    files: a path that is not
    <target>/<folder>/Resized/<base name>_cropped.png, for a folder name
    and the name of an image, holds after the run what it held before. *)
Theorem process_folder_changes_only_outputs (target_dir : string)
    (fs fs' : filesystem) (path : string) :
  valid_listings fs →
  process_folder target_dir fs = Returns tt fs' →
  (∀ folder file,
     valid_name folder = true → valid_name file = true →
     has_image_extension file = true →
     path ≠ output_path target_dir folder file) →
  files (fs_world fs') !! path = files (fs_world fs) !! path.
Proof.
  intros Hv Hrun Hpath.
  destruct (process_folder_frame target_dir fs) as (fs'' & Hrun' & Hframe).
  rewrite Hrun in Hrun'. simplify_eq.
  destruct (Hframe Hv) as [_ [_ Hfiles]]. apply Hfiles.
  intros (folder & file & Hfolder & Hfile & Hext & Heq).
  exact (Hpath folder file Hfolder Hfile Hext Heq).
Qed.

(** X12. [process_folder] never touches a source image, nor any other
    file of a folder beside [Resized]: for names without separator and a
    folder name [sub] other than "Resized", the file
    <target>/<folder>/<sub>/<file> is the same after the run. *)
Theorem process_folder_keeps_the_sources (target_dir : string) (fs fs' : filesystem)
    (folder sub file : string) :
  valid_listings fs →
  process_folder target_dir fs = Returns tt fs' →
  valid_name folder = true → valid_name sub = true → valid_name file = true →
  sub ≠ "Resized" →
  files (fs_world fs') !! path_in target_dir folder sub file
  = files (fs_world fs) !! path_in target_dir folder sub file.
Proof.
  intros Hv Hrun Hfolder Hsub Hfile Hne.
  destruct (process_folder_frame target_dir fs) as (fs'' & Hrun' & Hframe).
  rewrite Hrun in Hrun'. simplify_eq.
  destruct (Hframe Hv) as [_ [_ Hfiles]]. apply Hfiles.
  intros (folder' & file' & Hfolder' & Hfile' & Hext & Heq).
  symmetry in Heq. revert Heq.
  by apply output_path_not_in_sibling.
Qed.

(** X13. When the target is not a directory, [os.listdir] raises and
    [process_folder] returns with nothing changed. *)
Theorem process_folder_without_target (target_dir : string) (fs : filesystem) :
  fs_dirs fs !! target_dir = None →
  process_folder target_dir fs = Returns tt fs.
Proof.
  intros Hdir.
  unfold process_folder, process_folder_try, io_bind, io_read, os_listdir.
  by rewrite Hdir.
Qed.

Lemma valid_listings_by_check (fs : filesystem) :
  map_Forall (λ _ names, Forall (λ name, valid_name name = true) names) (fs_dirs fs) →
  valid_listings fs.
Proof.
  intros Hall dir names name Hdir Hin.
  specialize (Hall dir names Hdir). rewrite Forall_forall in Hall. auto.
Qed.

Lemma valid_listings_batch_fs : valid_listings batch_fs.
Proof.
  apply valid_listings_by_check.
  apply (bool_decide_unpack
    (map_Forall (λ _ names, Forall (λ name, valid_name name = true) names)
       (fs_dirs batch_fs))).
  vm_compute. exact I.
Defined.

Lemma process_folder_changes_only_outputs_witness :
  valid_listings batch_fs
  ∧ ∃ fs',
      process_folder "target" batch_fs = Returns tt fs'
      ∧ files (fs_world fs') !! "target/w1/PNG/notes.txt"
        = files (fs_world batch_fs) !! "target/w1/PNG/notes.txt".
Proof.
  split; [exact valid_listings_batch_fs|].
  destruct (process_folder_frame "target" batch_fs) as (fs' & Hrun & _).
  exists fs'. split; [exact Hrun|].
  apply (process_folder_changes_only_outputs "target" batch_fs fs'
           "target/w1/PNG/notes.txt" valid_listings_batch_fs Hrun).
  intros folder file Hfolder Hfile _ Heq. symmetry in Heq. revert Heq.
  change "target/w1/PNG/notes.txt" with (path_in "target" "w1" "PNG" "notes.txt").
  apply output_path_not_in_sibling; [exact Hfolder|exact Hfile|reflexivity..|discriminate].
Defined.

Lemma process_folder_keeps_the_sources_witness :
  valid_listings batch_fs
  ∧ ∃ fs',
      process_folder "target" batch_fs = Returns tt fs'
      ∧ files (fs_world fs') !! path_in "target" "w1" "PNG" "a.png"
        = files (fs_world batch_fs) !! path_in "target" "w1" "PNG" "a.png".
Proof.
  split; [exact valid_listings_batch_fs|].
  destruct (process_folder_frame "target" batch_fs) as (fs' & Hrun & _).
  exists fs'. split; [exact Hrun|].
  apply (process_folder_keeps_the_sources "target" batch_fs fs' "w1" "PNG" "a.png"
           valid_listings_batch_fs Hrun); [reflexivity..|discriminate].
Defined.

Lemma process_folder_without_target_witness :
  fs_dirs batch_fs !! "elsewhere" = None
  ∧ process_folder "elsewhere" batch_fs = Returns tt batch_fs.
Proof.
  assert (fs_dirs batch_fs !! "elsewhere" = None) as Hdir by (vm_compute; reflexivity).
  split; [exact Hdir|].
  exact (process_folder_without_target "elsewhere" batch_fs Hdir).
Defined.

(** ** The images of one folder *)

Lemma for_each_app {A} (xs ys : list A) (body : A → io unit) (fs : filesystem) :
  for_each (xs ++ ys) body fs = io_bind (for_each xs body) (λ _, for_each ys body) fs.
Proof.
  revert fs. induction xs as [|x xs IH]; intros fs; simpl; [done|].
  unfold io_bind. destruct (body x fs) as [[] fs1|e fs1|]; [|done..].
  rewrite IH. done.
Qed.

(** X14. In the loop over the images of a folder, the last image written
    to an output path decides what the path holds: when its source still
    holds a rectangular image when its turn comes (no earlier output is
    written over it), the output path can be written and no later image
    has the same output path, the path holds in the end the crop of that
    image with threshold 240, transparency counted, squared with a padding
    of 700. *)
Theorem process_images_last_writer_wins (resized_folder : string)
    (before after : list (string * string)) (source_path filename : string)
    (img : image) (fs : filesystem) :
  files (fs_world fs) !! source_path = Some (ImageFile img) →
  wf_image img →
  os_path_join resized_folder (output_filename filename) ∉ read_only (fs_world fs) →
  (∀ job, job ∈ before →
     os_path_join resized_folder (output_filename job.2) ≠ source_path) →
  (∀ job, job ∈ after →
     os_path_join resized_folder (output_filename job.2)
     ≠ os_path_join resized_folder (output_filename filename)) →
  ∃ r fs',
    crop img 240 true true 700 = Ok r
    ∧ process_images resized_folder (before ++ (source_path, filename) :: after) fs
      = Returns tt fs'
    ∧ files (fs_world fs') !! os_path_join resized_folder (output_filename filename)
      = Some (ImageFile (saved_image r)).
Proof.
  intros Hsrc Hwf Hout Hbefore Hafter.
  set (out := os_path_join resized_folder (output_filename filename)) in *.
  destruct (process_images_frame resized_folder before fs)
    as (fs1 & Hrun1 & Hd1 & Hro1 & Hf1).
  assert (files (fs_world fs1) !! source_path = Some (ImageFile img)) as Hsrc1.
  { rewrite Hf1; [done|]. exact Hbefore. }
  assert (out ∉ read_only (fs_world fs1)) as Hout1 by (by rewrite Hro1).
  destruct (auto_crop_borders_saves (fs_world fs1) source_path out img 240 true true 700
              Hsrc1 Hwf ltac:(lia) Hout1) as (r & w2 & Hr & Hrun2 & Hfile2 & _ & Hro2).
  destruct (process_images_frame resized_folder after (FileSystem w2 (fs_dirs fs1)))
    as (fs' & Hrun3 & _ & _ & Hf3).
  exists r, fs'. split; [done|]. split.
  - unfold process_images in *. rewrite for_each_app. unfold io_bind at 1.
    rewrite Hrun1. simpl. unfold io_bind at 1. unfold call_auto_crop_borders at 1.
    fold out. rewrite Hrun2. exact Hrun3.
  - rewrite Hf3; [done|]. exact Hafter.
Qed.

Lemma process_images_last_writer_wins_witness :
  files (fs_world batch_fs) !! "target/w1/Transparent_ Background/a.JPG"
  = Some (ImageFile narrow_image)
  ∧ wf_image narrow_image
  ∧ (os_path_join "target/w1/Resized" (output_filename "a.JPG")
     ∉ read_only (fs_world batch_fs))
  ∧ ∃ r fs',
      crop narrow_image 240 true true 700 = Ok r
      ∧ process_images "target/w1/Resized"
          ([("target/w1/PNG/a.png", "a.png")]
           ++ ("target/w1/Transparent_ Background/a.JPG", "a.JPG") :: []) batch_fs
        = Returns tt fs'
      ∧ files (fs_world fs') !! os_path_join "target/w1/Resized" (output_filename "a.JPG")
        = Some (ImageFile (saved_image r)).
Proof.
  assert (files (fs_world batch_fs) !! "target/w1/Transparent_ Background/a.JPG"
          = Some (ImageFile narrow_image)) as Hsrc by (vm_compute; reflexivity).
  assert (os_path_join "target/w1/Resized" (output_filename "a.JPG")
          ∉ read_only (fs_world batch_fs)) as Hout
    by (apply (bool_decide_unpack
                 (os_path_join "target/w1/Resized" (output_filename "a.JPG")
                  ∉ read_only (fs_world batch_fs))); vm_compute; exact I).
  assert (∀ job : string * string, job ∈ [("target/w1/PNG/a.png", "a.png")] →
            os_path_join "target/w1/Resized" (output_filename job.2)
            ≠ "target/w1/Transparent_ Background/a.JPG") as Hbefore
    by (intros job Hjob; apply list_elem_of_singleton in Hjob; rewrite Hjob;
        vm_compute; discriminate).
  assert (∀ job : string * string, job ∈ [] →
            os_path_join "target/w1/Resized" (output_filename job.2)
            ≠ os_path_join "target/w1/Resized" (output_filename "a.JPG")) as Hafter
    by (intros job Hjob; apply elem_of_nil in Hjob; destruct Hjob).
  split; [exact Hsrc|]. split; [exact wf_narrow_image|]. split; [exact Hout|].
  exact (process_images_last_writer_wins "target/w1/Resized"
           [("target/w1/PNG/a.png", "a.png")] []
           "target/w1/Transparent_ Background/a.JPG" "a.JPG" narrow_image batch_fs
           Hsrc wf_narrow_image Hout Hbefore Hafter).
Defined.

(** ** The names of the outputs *)

(** X15. The output of an image named <stem>.<ext> is named
    <stem>_cropped.png, whatever the extension: two images of a folder
    whose names differ in the extension only are written to the same
    output.  A stem without any character other than dots is no stem for
    [os.path.splitext]: the whole name is kept, and ".png" gives
    ".png_cropped.png". *)
Theorem output_filename_of_stem (stem ext : string) :
  contains "/" stem = false → contains "/" ext = false → contains "." ext = false →
  output_filename (stem +:+ String "." ext)
  = (if all_chars "." stem then stem +:+ String "." ext else stem) +:+ "_cropped.png".
Proof.
  intros Hstem Hext Hdot. unfold output_filename, os_path_splitext.
  rewrite (rsplit_last "." stem ext Hdot).
  replace (contains "/" (String "." ext)) with false by (simpl; by rewrite Hext).
  rewrite (rsplit_None "/" stem Hstem).
  by destruct (all_chars "." stem).
Qed.

Lemma output_filename_of_stem_witness :
  contains "/" "a" = false ∧ contains "/" "JPG" = false ∧ contains "." "JPG" = false
  ∧ output_filename ("a" +:+ String "." "JPG")
    = (if all_chars "." "a" then "a" +:+ String "." "JPG" else "a") +:+ "_cropped.png".
Proof.
  split; [reflexivity|]. split; [reflexivity|]. split; [reflexivity|].
  exact (output_filename_of_stem "a" "JPG" eq_refl eq_refl eq_refl).
Defined.

(** ** The names taken as images *)

Lemma endswith_unfold (s suffix : string) :
  endswith s suffix
  = String.eqb s suffix
    || match s with
       | EmptyString => false
       | String _ s' => endswith s' suffix
       end.
Proof. by destruct s. Qed.

Lemma endswith_app (s suffix : string) : endswith (s +:+ suffix) suffix = true.
Proof.
  induction s as [|a s IH].
  - rewrite app_nil_l_s, endswith_unfold. by rewrite String.eqb_refl.
  - rewrite app_cons_s, endswith_unfold, IH. by rewrite orb_true_r.
Qed.

Lemma endswith_inv (s suffix : string) :
  endswith s suffix = true → ∃ stem, s = stem +:+ suffix.
Proof.
  induction s as [|a s IH]; rewrite endswith_unfold.
  - rewrite orb_false_r. intros ->%String.eqb_eq. by exists "".
  - intros [Heq|Hs]%orb_true_iff.
    + apply String.eqb_eq in Heq as <-. by exists "".
    + destruct (IH Hs) as [stem ->]. by exists (String a stem).
Qed.

Lemma lower_app (s t : string) : lower (s +:+ t) = lower s +:+ lower t.
Proof.
  induction s as [|a s IH]; [done|]. rewrite app_cons_s. simpl.
  by rewrite IH, app_cons_s.
Qed.

Lemma lower_app_inv (s a b : string) :
  lower s = a +:+ b → ∃ a' b', s = a' +:+ b' ∧ lower a' = a ∧ lower b' = b.
Proof.
  revert s. induction a as [|c a IH]; intros s.
  - rewrite app_nil_l_s. intros Hs. by exists "", s.
  - rewrite app_cons_s. destruct s as [|d s]; simpl; [done|].
    intros Hs. simplify_eq. destruct (IH s) as (a' & b' & -> & <- & <-); [done|].
    by exists (String d a'), b'.
Qed.

(** X16. A name is taken as an image exactly when it ends with ".png",
    ".jpg" or ".jpeg" in any mix of capitals and small letters: the test
    looks at the end of the name only, after lower-casing it. *)
Theorem has_image_extension_iff (file : string) :
  has_image_extension file = true
  ↔ ∃ stem ext, file = stem +:+ ext ∧ lower ext ∈ [".png"; ".jpg"; ".jpeg"].
Proof.
  unfold has_image_extension. rewrite existsb_exists. split.
  - intros (suffix & Hin & Hend).
    apply endswith_inv in Hend as [stem' Hlow].
    apply lower_app_inv in Hlow as (stem & ext & -> & _ & Hext).
    exists stem, ext. split; [done|]. rewrite Hext. by apply list_elem_of_In.
  - intros (stem & ext & -> & Hin). exists (lower ext).
    split; [by apply list_elem_of_In|]. rewrite lower_app. apply endswith_app.
Qed.
